(** * Calls actions of the mobile client (app/products/calls/actions/calls.ts)

    A shallow embedding of the actions module: every exported action is a
    computation in a small state-and-trace monad.  The state is what the
    module and the calls state store hold (stored configs, per-server calls
    state, the module-level [connection]); the trace lists, in order, every
    call the action makes on a collaborator that lives outside the module
    (network manager, REST client, connection object, state setters, alert
    dialogs).  Answers of the collaborators come from an environment [Env].

    An action runs from its call to its return without another action in
    between; [loadConfigAndCalls], which starts two actions without awaiting
    them, and two [joinCall]s that overlap are modelled apart, with the
    actions split at their [await]s.
    Numbers are integers (timestamps in milliseconds, counters).  The last
    part models the file-type filter of the search results. *)

From stdpp Require Import base option list strings gmap.
From Stdlib Require Import ZArith.

Local Open Scope Z_scope.

(** ** Data *)

(** A value of a config field as it arrives in JSON. *)
Inductive JsValue :=
| JBool (b : bool)
| JNumber (n : Z)
| JString (s : string)
| JStrings (l : list string).

(** [CallsConfig]: an object with a numeric [last_retrieved_at] (absent on an
    object that never got one, hence the option) and the remaining fields,
    the feature flags, by name. *)
Record CallsConfig := {
  last_retrieved_at : option Z;
  flags : gmap string JsValue;
}.

(** The error value a collaborator throws. *)
Record ClientError := {
  message : string;
  status_code : option Z;
}.

(** The value under the [error] key of a result: a thrown error or one of
    the literal strings of [joinCall]. *)
Inductive ErrorValue :=
| Thrown (e : ClientError)
| Literal (s : string).

(** The objects the actions return: [{data}], [{error}] or [{}]. *)
Inductive ActionResult (A : Type) :=
| Data (data : A)
| Error (error : ErrorValue)
| Empty.
Arguments Data {A} data.
Arguments Error {A} error.
Arguments Empty {A}.

Record ServerUserState := {
  unmuted : bool;
  raised_hand : Z;
}.

Record ServerCallState := {
  start_at : Z;
  users : list string;
  states : option (list ServerUserState);
  thread_id : string;
  screen_sharing_id : string;
  creator_id : string;
}.

Record ServerChannelState := {
  channel_id : string;
  enabled : bool;
  call : option ServerCallState;
}.

Record CallParticipant := {
  id : string;
  muted : bool;
  raisedHand : Z;
}.

Record Call := {
  participants : gmap string CallParticipant;
  channelId : string;
  startTime : Z;
  screenOn : string;
  threadId : string;
  creatorId : string;
}.

Record ClientPluginManifest := {
  manifest_id : string;
}.

(** The connection object [newConnection] resolves to: an identity and the
    outcome of its [waitForReady()] promise ([true]: resolves). *)
Record CallsConnection := {
  conn_id : nat;
  conn_ready : bool;
}.

(** The per-server calls state read by [getCallsState]. *)
Record CallsState := {
  myUserId : string;
  calls : gmap string Call;
  enabledChannels : gmap string bool;
}.

(** ** Collaborators *)

(** The REST requests of [Client] used by the module. *)
Inductive Request :=
| ReqGetCallsConfig
| ReqGetCalls
| ReqGetPluginsManifests
| ReqEnableChannelCalls (channelId : string)
| ReqDisableChannelCalls (channelId : string)
| ReqEndCall (channelId : string).

(** A REST client: what each request answers, [inl] for a rejected promise. *)
Record Client := {
  resp_getCallsConfig : ClientError + gmap string JsValue;
  resp_getCalls : ClientError + list ServerChannelState;
  resp_getPluginsManifests : ClientError + list ClientPluginManifest;
  resp_enableChannelCalls : string → ClientError + unit;
  resp_disableChannelCalls : string → ClientError + unit;
  resp_endCall : string → ClientError + unit;
}.

Record UserModel := {
  user_id : string;
  roles : string;
  username : string;
}.

Record ChannelModel := {
  displayName : string;
  channel_type : string;
  channel_name : string;
}.

Record PreferenceModel := {
  pref_category : string;
  pref_name : string;
  pref_value : string;
}.

(** The server database as the queries of [endCallAlert] see it. *)
Record Database := {
  db_currentUser : option UserModel;
  db_channels : gmap string ChannelModel;
  db_users : gmap string UserModel;
  db_config : gmap string string;
  db_license : gmap string string;
  db_preferences : list PreferenceModel;
}.

(** [intl]: [formatMessage] takes the descriptor's id and default message
    and the values to interpolate. *)
Record IntlShape := {
  formatMessage : string → string → list (string * JsValue) → string;
  locale : string;
}.

(** What [onPress] of an alert button runs. *)
Inductive PressHandler :=
| PressEndCall (serverUrl channelId : string).

Record AlertButton := {
  button_text : string;
  button_onPress : option PressHandler;
  button_style : option string;
}.

(** One call on a collaborator. *)
Inductive Event :=
| EvGetClient (serverUrl : string)
| EvRequest (serverUrl : string) (r : Request)
| EvForceLogoutIfNecessary (serverUrl : string) (error : ClientError)
| EvSetConfig (serverUrl : string) (config : CallsConfig)
| EvSetCalls (serverUrl userId : string)
    (calls : gmap string Call) (enabled : gmap string bool)
| EvSetChannelEnabled (serverUrl channelId : string) (enabled : bool)
| EvSetPluginEnabled (serverUrl : string) (enabled : bool)
| EvMyselfJoinedCall (serverUrl channelId : string)
| EvMyselfLeftCall
| EvSetSpeakerPhone (speakerphoneOn : bool)
| EvInCallManagerSetSpeakerphoneOn (speakerphoneOn : bool)
| EvFetchUsersByIds (serverUrl : string) (ids : list string)
| EvHasMicrophonePermission
| EvNewConnection (serverUrl channelId : string)
    (result : ClientError + CallsConnection)
| EvWaitForReady (c : CallsConnection)
| EvDisconnect (c : CallsConnection)
| EvMute (c : CallsConnection)
| EvUnmute (c : CallsConnection)
| EvRaiseHand (c : CallsConnection)
| EvUnraiseHand (c : CallsConnection)
| EvAlert (title msg : string) (buttons : list AlertButton).

(** The answers of the outside world during one action. *)
Record Env := {
  Date_now : Z;
  env_getClient : string → ClientError + Client;
  env_hasMicrophonePermission : bool;
  env_newConnection : string → string → ClientError + CallsConnection;
  env_serverDatabases : gmap string Database;
}.

(** Constants and pure helpers the module imports from files that are not
    part of the sources at hand; the development is parametric in them. *)
Class Imports := {
  RefreshConfigMillis : Z;
  PluginId : string;
  DefaultCallsConfig : CallsConfig;
  DM_CHANNEL : string;
  CATEGORY_DISPLAY_SETTINGS : string;
  NAME_NAME_FORMAT : string;
  isSystemAdmin : string → bool;
  getUserIdFromDM : string → string → string;
  getTeammateNameDisplaySetting :
    list PreferenceModel → gmap string string → gmap string string → string;
  displayUsername : option UserModel → string → string → string;
}.

(** ** State and monad *)

Record World := {
  callsConfigs : gmap string CallsConfig;
  callsStates : gmap string CallsState;
  connection : option CallsConnection;
}.

Definition M (A : Type) : Type := World → A * World * list Event.

#[global] Instance M_ret : MRet M := λ A a w, (a, w, []).

#[global] Instance M_bind : MBind M := λ A B f m w,
  let '(a, w1, t1) := m w in
  let '(b, w2, t2) := f a w1 in
  (b, w2, t1 ++ t2).

Definition emit (e : Event) : M unit := λ w, (tt, w, [e]).

Definition result {A} (x : A * World * list Event) : A := x.1.1.
Definition final {A} (x : A * World * list Event) : World := x.1.2.
Definition events {A} (x : A * World * list Event) : list Event := x.2.

Section Actions.
Context `{Imports}.

(** ** The calls state store

    The setters and getters of [@calls/state] are imported by the module;
    their file is not among the sources.  The spec describes them as "a
    local call-state store with reducer-like setters". *)

(** Modelled from the spec: the calls state of a server that has none
    stored yet (the default of [getCallsState], missing with its file). *)
Definition DefaultCallsState : CallsState :=
  {| myUserId := ""; calls := ∅; enabledChannels := ∅ |}.

(** Modelled from the spec: [getCallsConfig] of [@calls/state] (missing),
    the config stored for the server, [DefaultCallsConfig] when there is
    none. *)
Definition getCallsConfig (serverUrl : string) : M CallsConfig := λ w,
  (default DefaultCallsConfig (callsConfigs w !! serverUrl), w, []).

(** Modelled from the spec: [getCallsState] of [@calls/state] (missing),
    the calls state stored for the server. *)
Definition getCallsState (serverUrl : string) : M CallsState := λ w,
  (default DefaultCallsState (callsStates w !! serverUrl), w, []).

(** Modelled from the spec: [setConfig] of [@calls/state] (missing), a
    setter that makes its argument the config stored for the server. *)
Definition setConfig (serverUrl : string) (config : CallsConfig) : M unit := λ w,
  (tt,
   {| callsConfigs := <[serverUrl := config]> (callsConfigs w);
      callsStates := callsStates w;
      connection := connection w |},
   [EvSetConfig serverUrl config]).

Definition setCallsState (serverUrl : string) (s : CallsState) (w : World) : World :=
  {| callsConfigs := callsConfigs w;
     callsStates := <[serverUrl := s]> (callsStates w);
     connection := connection w |}.

(** Modelled from the spec: [setCalls] of [@calls/state] (missing), a setter
    that makes its arguments the calls and the enabled flags stored for the
    server. *)
Definition setCalls (serverUrl userId : string)
    (cs : gmap string Call) (en : gmap string bool) : M unit := λ w,
  (tt,
   setCallsState serverUrl
     {| myUserId := userId; calls := cs; enabledChannels := en |} w,
   [EvSetCalls serverUrl userId cs en]).

(** Modelled from the spec: [setChannelEnabled] of [@calls/state] (missing),
    a setter of the flag of one channel ("an enable/disable toggle per
    channel"). *)
Definition setChannelEnabled (serverUrl channelId : string) (b : bool) : M unit := λ w,
  let s := default DefaultCallsState (callsStates w !! serverUrl) in
  (tt,
   setCallsState serverUrl
     {| myUserId := myUserId s; calls := calls s;
        enabledChannels := <[channelId := b]> (enabledChannels s) |} w,
   [EvSetChannelEnabled serverUrl channelId b]).

(** Modelled from the spec: [setPluginEnabled] of [@calls/state] (missing);
    what it stores is not modelled, the trace records the call. *)
Definition setPluginEnabled (serverUrl : string) (b : bool) : M unit :=
  emit (EvSetPluginEnabled serverUrl b).

(** Modelled from the spec: [myselfJoinedCall] of [@calls/state] (missing);
    what it stores is not modelled, the trace records the call. *)
Definition myselfJoinedCall (serverUrl channelId : string) : M unit :=
  emit (EvMyselfJoinedCall serverUrl channelId).

(** Modelled from the spec: [myselfLeftCall] of [@calls/state] (missing);
    what it stores is not modelled, the trace records the call. *)
Definition myselfLeftCall : M unit := emit EvMyselfLeftCall.

(** Modelled from the spec: [setSpeakerPhone] of [@calls/state] (missing);
    what it stores is not modelled, the trace records the call. *)
Definition setSpeakerPhone (b : bool) : M unit := emit (EvSetSpeakerPhone b).

(** ** Calls on the other collaborators

    The network manager, the REST client, the connection object and the
    session handler are external; a call on one of them is an event of the
    trace and its answer comes from the environment. *)

(** [NetworkManager.getClient(serverUrl)]: [inl] when it throws. *)
Definition NetworkManager_getClient (env : Env) (serverUrl : string)
    : M (ClientError + Client) :=
  emit (EvGetClient serverUrl);; mret (env_getClient env serverUrl).

(** [await client.method(...)]: [inl] when the promise is rejected. *)
Definition request {A} (serverUrl : string) (r : Request)
    (answer : ClientError + A) : M (ClientError + A) :=
  emit (EvRequest serverUrl r);; mret answer.

(** Modelled from the spec: [forceLogoutIfNecessary] of
    [@actions/remote/session] (missing), the shared "force logout if session
    invalid" handler: a call that returns and leaves the calls store and the
    connection alone. *)
Definition forceLogoutIfNecessary (serverUrl : string) (error : ClientError) : M unit :=
  emit (EvForceLogoutIfNecessary serverUrl error).

(** The module-level [let connection]. *)
Definition getConnection : M (option CallsConnection) := λ w, (connection w, w, []).

Definition setConnection (c : option CallsConnection) : M unit := λ w,
  (tt,
   {| callsConfigs := callsConfigs w; callsStates := callsStates w;
      connection := c |},
   []).

(** ** loadConfig *)

(** [x || 0] on a number that may be missing. *)
Definition or_zero (x : option Z) : Z :=
  match x with
  | Some n => if n =? 0 then 0 else n
  | None => 0
  end.

(** [{...DefaultCallsConfig, last_retrieved_at: now}] *)
Definition defaultConfigAt (now : Z) : CallsConfig :=
  {| last_retrieved_at := Some now; flags := flags DefaultCallsConfig |}.

(** [{...config, ...data, last_retrieved_at: now}]: a later spread wins, so
    the fetched fields go on top of the cached ones. *)
Definition mergeConfig (config : CallsConfig) (data : gmap string JsValue)
    (now : Z) : CallsConfig :=
  {| last_retrieved_at := Some now; flags := data ∪ flags config |}.

(** The part of [loadConfig] after the freshness gate. *)
Definition fetchConfig (env : Env) (serverUrl : string) (now : Z)
    (config : CallsConfig) : M (ActionResult CallsConfig) :=
  c ← NetworkManager_getClient env serverUrl;
  match c with
  | inl error => mret (Error (Thrown error))
  | inr client =>
      d ← request serverUrl ReqGetCallsConfig (resp_getCallsConfig client);
      match d with
      | inl error =>
          forceLogoutIfNecessary serverUrl error;;
          setConfig serverUrl (defaultConfigAt now);;
          mret (Error (Thrown error))
      | inr data =>
          let nextConfig := mergeConfig config data now in
          setConfig serverUrl nextConfig;;
          mret (Data nextConfig)
      end
  end.

Definition loadConfig (env : Env) (serverUrl : string) (force : bool)
    : M (ActionResult CallsConfig) :=
  let now := Date_now env in
  config ← getCallsConfig serverUrl;
  if negb force then
    let lastRetrievedAt := or_zero (last_retrieved_at config) in
    if now - lastRetrievedAt <? RefreshConfigMillis
    then mret (Data config)
    else fetchConfig env serverUrl now config
  else fetchConfig env serverUrl now config.

(** ** loadCalls *)

(** [Array.prototype.reduce] with the index handed to the callback. *)
Fixpoint reduce_from {A B} (f : B → A → nat → B) (l : list A) (i : nat) (acc : B) : B :=
  match l with
  | [] => acc
  | cur :: l' => reduce_from f l' (S i) (f acc cur i)
  end.

Definition reduce {A B} (f : B → A → nat → B) (l : list A) (init : B) : B :=
  reduce_from f l 0%nat init.

(** [Set.prototype.add] on a set kept in insertion order. *)
Definition set_add (ids : list string) (i : string) : list string :=
  if decide (i ∈ ids) then ids else ids ++ [i].

Definition collectIds (resp : list ServerChannelState) : list string :=
  foldl (λ ids channel,
           match call channel with
           | Some c => foldl set_add ids (users c)
           | None => ids
           end) [] resp.

(** The participant built for [cur] at index [curIdx]:
    [call.states && call.states[curIdx] ? ... : ...]. *)
Definition participantAt (c : ServerCallState) (cur : string) (curIdx : nat)
    : CallParticipant :=
  let st := states c ≫= (λ ss, ss !! curIdx) in
  {| id := cur;
     muted := match st with Some s => negb (unmuted s) | None => true end;
     raisedHand := match st with Some s => raised_hand s | None => 0 end |}.

(** The callback of the [reduce]: [accum[cur] = {id: cur, muted, raisedHand}]. *)
Definition addParticipant (c : ServerCallState)
    (accum : gmap string CallParticipant) (cur : string) (curIdx : nat)
    : gmap string CallParticipant :=
  <[cur := participantAt c cur curIdx]> accum.

Definition buildParticipants (c : ServerCallState) : gmap string CallParticipant :=
  reduce (addParticipant c) (users c) ∅.

Definition toCall (channel : ServerChannelState) (c : ServerCallState) : Call :=
  {| participants := buildParticipants c;
     channelId := channel_id channel;
     startTime := start_at c;
     screenOn := screen_sharing_id c;
     threadId := thread_id c;
     creatorId := creator_id c |}.

(** One turn of [for (const channel of resp)]. *)
Definition loadCallsStep (acc : gmap string Call * gmap string bool)
    (channel : ServerChannelState) : gmap string Call * gmap string bool :=
  (match call channel with
   | Some c => <[channel_id channel := toCall channel c]> acc.1
   | None => acc.1
   end,
   <[channel_id channel := enabled channel]> acc.2).

(** Modelled from the spec: [fetchUsersByIds] of [@actions/remote/user]
    (missing), started and not awaited; the trace records the call. *)
Definition fetchUsersByIds (serverUrl : string) (ids : list string) : M unit :=
  emit (EvFetchUsersByIds serverUrl ids).

Definition loadCalls (env : Env) (serverUrl userId : string)
    : M (ActionResult (gmap string Call * gmap string bool)) :=
  c ← NetworkManager_getClient env serverUrl;
  match c with
  | inl error => mret (Error (Thrown error))
  | inr client =>
      r ← request serverUrl ReqGetCalls (resp_getCalls client);
      match r with
      | inl error =>
          forceLogoutIfNecessary serverUrl error;;
          mret (Error (Thrown error))
      | inr resp =>
          let ids := collectIds resp in
          (if bool_decide (0 < length ids)%nat
           then fetchUsersByIds serverUrl ids else mret tt);;
          let res := foldl loadCallsStep (∅, ∅) resp in
          setCalls serverUrl userId res.1 res.2;;
          mret (Data res)
      end
  end.

(** ** checkIsCallsPluginEnabled, enableChannelCalls, disableChannelCalls *)

(** [Array.prototype.findIndex]: -1 when nothing matches. *)
Definition findIndex {A} (p : A → bool) (l : list A) : Z :=
  match list_find (λ x, p x = true) l with
  | Some (i, _) => Z.of_nat i
  | None => -1
  end.

Definition checkIsCallsPluginEnabled (env : Env) (serverUrl : string)
    : M (ActionResult bool) :=
  c ← NetworkManager_getClient env serverUrl;
  match c with
  | inl error => mret (Error (Thrown error))
  | inr client =>
      d ← request serverUrl ReqGetPluginsManifests (resp_getPluginsManifests client);
      match d with
      | inl error =>
          forceLogoutIfNecessary serverUrl error;;
          mret (Error (Thrown error))
      | inr data =>
          let enabled :=
            negb (findIndex (λ m, bool_decide (manifest_id m = PluginId)) data =? -1) in
          setPluginEnabled serverUrl enabled;;
          mret (Data enabled)
      end
  end.

Definition enableChannelCalls (env : Env) (serverUrl channelId : string)
    : M (ActionResult unit) :=
  c ← NetworkManager_getClient env serverUrl;
  match c with
  | inl error => mret (Error (Thrown error))
  | inr client =>
      r ← request serverUrl (ReqEnableChannelCalls channelId)
            (resp_enableChannelCalls client channelId);
      match r with
      | inl error =>
          forceLogoutIfNecessary serverUrl error;;
          mret (Error (Thrown error))
      | inr _ =>
          setChannelEnabled serverUrl channelId true;;
          mret Empty
      end
  end.

Definition disableChannelCalls (env : Env) (serverUrl channelId : string)
    : M (ActionResult unit) :=
  c ← NetworkManager_getClient env serverUrl;
  match c with
  | inl error => mret (Error (Thrown error))
  | inr client =>
      r ← request serverUrl (ReqDisableChannelCalls channelId)
            (resp_disableChannelCalls client channelId);
      match r with
      | inl error =>
          forceLogoutIfNecessary serverUrl error;;
          mret (Error (Thrown error))
      | inr _ =>
          setChannelEnabled serverUrl channelId false;;
          mret Empty
      end
  end.

(** ** joinCall, leaveCall and the connection actions *)

Definition setSpeakerphoneOn (speakerphoneOn : bool) : M unit :=
  emit (EvInCallManagerSetSpeakerphoneOn speakerphoneOn);;
  setSpeakerPhone speakerphoneOn.

(** [hasMicrophonePermission(intl)] of [@calls/actions/permissions]: the
    answer comes from the environment. *)
Definition hasMicrophonePermission (env : Env) (intl : IntlShape) : M bool :=
  emit EvHasMicrophonePermission;; mret (env_hasMicrophonePermission env).

(** [newConnection(serverUrl, channelId, () => null, setScreenShareURL)]:
    [inl] when the promise is rejected.  The two callbacks are handed to the
    connection, which is external. *)
Definition newConnection (env : Env) (serverUrl channelId : string)
    : M (ClientError + CallsConnection) :=
  let r := env_newConnection env serverUrl channelId in
  emit (EvNewConnection serverUrl channelId r);; mret r.

(** [await connection.waitForReady()]: [false] when it is rejected. *)
Definition waitForReady (c : CallsConnection) : M bool :=
  emit (EvWaitForReady c);; mret (conn_ready c).

(** [if (connection) { connection.disconnect(); connection = null; }] *)
Definition dropConnection : M unit :=
  c ← getConnection;
  match c with
  | Some c => emit (EvDisconnect c);; setConnection None
  | None => mret tt
  end.

(** The result of [checkIsCallsPluginEnabled] destructured as
    [{data: enabled}]: a result without [data] leaves [enabled] undefined,
    which [!enabled] treats like [false]. *)
Definition dataOrFalse (r : ActionResult bool) : bool :=
  match r with
  | Data b => b
  | _ => false
  end.

Definition joinCall (env : Env) (serverUrl channelId : string) (intl : IntlShape)
    : M (ActionResult string) :=
  r ← checkIsCallsPluginEnabled env serverUrl;
  let enabled := dataOrFalse r in
  if negb enabled then mret (Error (Literal "calls plugin not enabled")) else
  hasPermission ← hasMicrophonePermission env intl;
  if negb hasPermission
  then mret (Error (Literal "no permissions to microphone, unable to start call"))
  else
  dropConnection;;
  setSpeakerphoneOn false;;
  n ← newConnection env serverUrl channelId;
  match n with
  | inl error =>
      forceLogoutIfNecessary serverUrl error;;
      mret (Error (Thrown error))
  | inr conn =>
      setConnection (Some conn);;
      ready ← waitForReady conn;
      if (ready : bool) then
        myselfJoinedCall serverUrl channelId;;
        mret (Data channelId)
      else
        (* [connection] is [conn] here: nothing ran since the assignment *)
        emit (EvDisconnect conn);;
        setConnection None;;
        mret (Error (Literal "unable to connect to the voice call"))
  end.

Definition leaveCall : M unit :=
  dropConnection;;
  setSpeakerphoneOn false;;
  myselfLeftCall.

(** [if (connection) { connection.method(); }] *)
Definition onConnection (method : CallsConnection → Event) : M unit :=
  c ← getConnection;
  match c with
  | Some c => emit (method c)
  | None => mret tt
  end.

Definition muteMyself : M unit := onConnection EvMute.
Definition unmuteMyself : M unit := onConnection EvUnmute.
Definition raiseHand : M unit := onConnection EvRaiseHand.
Definition unraiseHand : M unit := onConnection EvUnraiseHand.

(** ** endCallAlert *)

Definition Alert_alert (title msg : string) (buttons : list AlertButton) : M unit :=
  emit (EvAlert title msg buttons).

(** Modelled from the spec: [queryPreferencesByCategoryAndName] of
    [@queries/servers/preference] (missing), followed by [fetch()]: the
    preferences of the category and name ("a local preference-persistence
    layer"). *)
Definition queryPreferencesByCategoryAndName (database : Database)
    (category name : string) : list PreferenceModel :=
  filter (λ p, pref_category p = category ∧ pref_name p = name)
         (db_preferences database).

Definition permissionTitle (intl : IntlShape) : string :=
  formatMessage intl "mobile.calls_end_permission_title" "Error" [].

Definition permissionMsg (intl : IntlShape) : string :=
  formatMessage intl "mobile.calls_end_permission_msg"
    "You do not have permission to end the call. Please ask the call creator to end the call."
    [].

Definition endCallMsg (intl : IntlShape) (database : Database)
    (currentUser : UserModel) (channel : ChannelModel) (numParticipants : nat)
    : string :=
  if bool_decide (channel_type channel = DM_CHANNEL) then
    let otherID := getUserIdFromDM (channel_name channel) (user_id currentUser) in
    let otherUser := db_users database !! otherID in
    let preferences :=
      queryPreferencesByCategoryAndName database
        CATEGORY_DISPLAY_SETTINGS NAME_NAME_FORMAT in
    let displaySetting :=
      getTeammateNameDisplaySetting preferences
        (db_config database) (db_license database) in
    formatMessage intl "mobile.calls_end_msg_dm"
      "Are you sure you want to end a call with {displayName}?"
      [("displayName",
        JString (displayUsername otherUser (locale intl) displaySetting))]
  else
    formatMessage intl "mobile.calls_end_msg_channel"
      "Are you sure you want to end a call with {numParticipants} participants in {displayName}?"
      [("numParticipants", JNumber (Z.of_nat numParticipants));
       ("displayName", JString (displayName channel))].

Definition endCallButtons (intl : IntlShape) (serverUrl channelId : string)
    : list AlertButton :=
  let title := formatMessage intl "mobile.calls_end_call_title" "End call" [] in
  let cancel := formatMessage intl "mobile.post.cancel" "Cancel" [] in
  [ {| button_text := cancel; button_onPress := None; button_style := None |};
    {| button_text := title;
       button_onPress := Some (PressEndCall serverUrl channelId);
       button_style := Some "cancel" |} ].

Definition endCallAlert (env : Env) (serverUrl : string) (intl : IntlShape)
    (channelId : string) : M unit :=
  match env_serverDatabases env !! serverUrl with
  | None => mret tt
  | Some database =>
  match db_currentUser database with
  | None => mret tt
  | Some currentUser =>
  match db_channels database !! channelId with
  | None => mret tt
  | Some channel =>
  s ← getCallsState serverUrl;
  match calls s !! channelId with
  | None => mret tt
  | Some c =>
      let numParticipants := size (participants c) in
      let isAdmin := isSystemAdmin (roles currentUser) in
      if negb isAdmin && negb (bool_decide (user_id currentUser = creatorId c))
      then Alert_alert (permissionTitle intl) (permissionMsg intl) []
      else
        let title := formatMessage intl "mobile.calls_end_call_title" "End call" [] in
        let msg := endCallMsg intl database currentUser channel numParticipants in
        Alert_alert title msg (endCallButtons intl serverUrl channelId)
  end end end end.

(** The closure [endCall] of [endCallAlert]: [inl] is a throw. *)
Definition endCall (env : Env) (serverUrl channelId : string)
    : M (ClientError + unit) :=
  c ← NetworkManager_getClient env serverUrl;
  match c with
  | inl error => mret (inl error)
  | inr client =>
      d ← request serverUrl (ReqEndCall channelId) (resp_endCall client channelId);
      match d with
      | inl error =>
          forceLogoutIfNecessary serverUrl error;;
          mret (inl error)
      | inr data => mret (inr data)
      end
  end.

(** Pressing a button of an alert runs its [onPress]. *)
Definition press (env : Env) (h : PressHandler) : M unit :=
  match h with
  | PressEndCall serverUrl channelId =>
      r ← endCall env serverUrl channelId;
      match r with
      | inr _ => mret tt
      | inl e =>
          let err :=
            if bool_decide (message e = "")
            then "unable to complete command, see server logs"
            else message e in
          Alert_alert "Error" ("Error: " +:+ err) []
      end
  end.

(** ** Sequences of actions *)

Inductive Action :=
| ActLoadConfig (serverUrl : string) (force : bool)
| ActLoadCalls (serverUrl userId : string)
| ActCheckIsCallsPluginEnabled (serverUrl : string)
| ActEnableChannelCalls (serverUrl channelId : string)
| ActDisableChannelCalls (serverUrl channelId : string)
| ActJoinCall (serverUrl channelId : string) (intl : IntlShape)
| ActLeaveCall
| ActMuteMyself
| ActUnmuteMyself
| ActRaiseHand
| ActUnraiseHand
| ActSetSpeakerphoneOn (speakerphoneOn : bool)
| ActEndCallAlert (serverUrl : string) (intl : IntlShape) (channelId : string)
| ActPress (h : PressHandler).

Definition ignore {A} (m : M A) : M unit := m;; mret tt.

Definition perform (env : Env) (a : Action) : M unit :=
  match a with
  | ActLoadConfig serverUrl force => ignore (loadConfig env serverUrl force)
  | ActLoadCalls serverUrl userId => ignore (loadCalls env serverUrl userId)
  | ActCheckIsCallsPluginEnabled serverUrl =>
      ignore (checkIsCallsPluginEnabled env serverUrl)
  | ActEnableChannelCalls serverUrl channelId =>
      ignore (enableChannelCalls env serverUrl channelId)
  | ActDisableChannelCalls serverUrl channelId =>
      ignore (disableChannelCalls env serverUrl channelId)
  | ActJoinCall serverUrl channelId intl =>
      ignore (joinCall env serverUrl channelId intl)
  | ActLeaveCall => leaveCall
  | ActMuteMyself => muteMyself
  | ActUnmuteMyself => unmuteMyself
  | ActRaiseHand => raiseHand
  | ActUnraiseHand => unraiseHand
  | ActSetSpeakerphoneOn b => setSpeakerphoneOn b
  | ActEndCallAlert serverUrl intl channelId =>
      endCallAlert env serverUrl intl channelId
  | ActPress h => press env h
  end.

(** A session: the actions run one after the other, each with the answers
    the outside world gives during it. *)
Fixpoint performAll (l : list (Env * Action)) : M unit :=
  match l with
  | [] => mret tt
  | (env, a) :: l' => perform env a;; performAll l'
  end.

(** The connection the trace says is held: the one of the latest
    [newConnection] that resolved, unless a [disconnect()] came after it. *)
Definition heldAfter (h : option CallsConnection) (e : Event)
    : option CallsConnection :=
  match e with
  | EvNewConnection _ _ (inr c) => Some c
  | EvDisconnect _ => None
  | _ => h
  end.

Definition held (tr : list Event) : option CallsConnection :=
  foldl heldAfter None tr.

(** ** Vocabulary of the statements *)

(** The config stored for a server, as [getCallsConfig] reads it. *)
Definition storedConfig (serverUrl : string) (w : World) : CallsConfig :=
  result (getCallsConfig serverUrl w).

(** The world with the stored timestamp of a server set to [ts]. *)
Definition stamp (serverUrl : string) (ts : option Z) (w : World) : World :=
  {| callsConfigs :=
       <[serverUrl := {| last_retrieved_at := ts;
                         flags := flags (storedConfig serverUrl w) |}]>
         (callsConfigs w);
     callsStates := callsStates w;
     connection := connection w |}.

(** "No field of the previously stored config survives into the new stored
    value unless it is present in the fetched data." *)
Definition survives_only_if_fetched (old new : CallsConfig)
    (data : gmap string JsValue) : Prop :=
  ∀ k v, flags old !! k = Some v → flags new !! k = Some v → is_Some (data !! k).

(** The flag stored for a channel, as read through [getCallsState]. *)
Definition channelEnabled (serverUrl channelId : string) (w : World) : option bool :=
  enabledChannels (result (getCallsState serverUrl w)) !! channelId.

(** [joinCall] gets as far as [waitForReady()] on [conn]: the plugin check
    reported true, the microphone may be used and [newConnection] resolved
    to [conn]. *)
Definition reachesWaitForReady (env : Env) (serverUrl channelId : string)
    (w : World) (conn : CallsConnection) : Prop :=
  result (checkIsCallsPluginEnabled env serverUrl w) = Data true
  ∧ env_hasMicrophonePermission env = true
  ∧ env_newConnection env serverUrl channelId = inr conn.

(** The alert that tells the user they may not end the call. *)
Definition permissionAlert (intl : IntlShape) : Event :=
  EvAlert (permissionTitle intl) (permissionMsg intl) [].

(** An alert offers the [endCall] request when one of its buttons runs it. *)
Definition offersEndCall (e : Event) : Prop :=
  ∃ title msg buttons b u ch,
    e = EvAlert title msg buttons
    ∧ b ∈ buttons
    ∧ button_onPress b = Some (PressEndCall u ch).

Definition isEndCallRequest (e : Event) : Prop :=
  ∃ u ch, e = EvRequest u (ReqEndCall ch).

(** What [endCallAlert] looks up before it decides: the server database,
    the current user, the channel and the call of the channel. *)
Definition endCallContext (env : Env) (serverUrl channelId : string) (w : World)
    : option (Database * UserModel * ChannelModel * Call) :=
  database ← env_serverDatabases env !! serverUrl;
  currentUser ← db_currentUser database;
  channel ← db_channels database !! channelId;
  c ← calls (result (getCallsState serverUrl w)) !! channelId;
  Some (database, currentUser, channel, c).

(** "[endCallAlert] shows a permission-error alert whenever the current user
    is neither a system admin nor the call's creator." *)
Definition permission_alert_whenever (env : Env) (serverUrl : string)
    (intl : IntlShape) (channelId : string) (w : World) : Prop :=
  ∀ database currentUser c,
    env_serverDatabases env !! serverUrl = Some database →
    db_currentUser database = Some currentUser →
    calls (result (getCallsState serverUrl w)) !! channelId = Some c →
    isSystemAdmin (roles currentUser) = false →
    user_id currentUser ≠ creatorId c →
    permissionAlert intl ∈ events (endCallAlert env serverUrl intl channelId w).

End Actions.

(** ** Sample data *)

Definition sampleImports : Imports := {|
  RefreshConfigMillis := 1200000;
  PluginId := "com.mattermost.calls";
  DefaultCallsConfig :=
    {| last_retrieved_at := Some 0;
       flags := {[ "AllowEnableCalls" := JBool false ]} |};
  DM_CHANNEL := "D";
  CATEGORY_DISPLAY_SETTINGS := "display_settings";
  NAME_NAME_FORMAT := "name_format";
  isSystemAdmin := λ r,
    match String.index 0 "system_admin" r with Some _ => true | None => false end;
  getUserIdFromDM := λ name me, name;
  getTeammateNameDisplaySetting := λ _ _ _, "username";
  displayUsername := λ u _ _, from_option username "Someone" u;
|}.

Definition sampleUrl : string := "https://chat.example".

Definition sampleError : ClientError :=
  {| message := "Network request failed"; status_code := None |}.

(** A client whose requests all succeed, with [data] as the config. *)
Definition clientOk (data : gmap string JsValue) (resp : list ServerChannelState)
    : Client :=
  {| resp_getCallsConfig := inr data;
     resp_getCalls := inr resp;
     resp_getPluginsManifests := inr [ {| manifest_id := "com.mattermost.calls" |} ];
     resp_enableChannelCalls := λ _, inr tt;
     resp_disableChannelCalls := λ _, inr tt;
     resp_endCall := λ _, inr tt |}.

(** A client whose requests all fail. *)
Definition clientDown : Client :=
  {| resp_getCallsConfig := inl sampleError;
     resp_getCalls := inl sampleError;
     resp_getPluginsManifests := inl sampleError;
     resp_enableChannelCalls := λ _, inl sampleError;
     resp_disableChannelCalls := λ _, inl sampleError;
     resp_endCall := λ _, inl sampleError |}.

Definition sampleConnection : CallsConnection :=
  {| conn_id := 1; conn_ready := true |}.

Definition envWith (now : Z) (client : ClientError + Client) : Env :=
  {| Date_now := now;
     env_getClient := λ _, client;
     env_hasMicrophonePermission := true;
     env_newConnection := λ _ _, inr sampleConnection;
     env_serverDatabases := ∅ |}.

Definition emptyWorld : World :=
  {| callsConfigs := ∅; callsStates := ∅; connection := None |}.

(** A world that cached, at time 1000, a config with two flags on. *)
Definition cachedWorld : World :=
  {| callsConfigs :=
       {[ sampleUrl :=
            {| last_retrieved_at := Some 1000;
               flags := {[ "AllowEnableCalls" := JBool true;
                           "DefaultEnabled" := JBool true ]} |} ]};
     callsStates := ∅;
     connection := None |}.

(** A plain member, and a call that somebody else started. *)
Definition sampleUser : UserModel :=
  {| user_id := "user1"; roles := "system_user"; username := "ann" |}.

Definition sampleChannel : ChannelModel :=
  {| displayName := "Town Square"; channel_type := "O";
     channel_name := "town-square" |}.

Definition sampleCall : Call :=
  {| participants := {[ "user2" := {| id := "user2"; muted := true; raisedHand := 0 |} ]};
     channelId := "channel1";
     startTime := 1000;
     screenOn := "";
     threadId := "";
     creatorId := "user2" |}.

Definition databaseWith (channels : gmap string ChannelModel) : Database :=
  {| db_currentUser := Some sampleUser;
     db_channels := channels;
     db_users := ∅;
     db_config := ∅;
     db_license := ∅;
     db_preferences := [] |}.

Definition envWithDatabase (database : Database) : Env :=
  {| Date_now := 5000000;
     env_getClient := λ _, inr clientDown;
     env_hasMicrophonePermission := true;
     env_newConnection := λ _ _, inr sampleConnection;
     env_serverDatabases := {[ sampleUrl := database ]} |}.

Definition sampleIntl : IntlShape :=
  {| formatMessage := λ _ defaultMessage _, defaultMessage; locale := "en" |}.

(** A world whose calls state has [sampleCall] running in channel1. *)
Definition callWorld : World :=
  {| callsConfigs := ∅;
     callsStates :=
       {[ sampleUrl := {| myUserId := "user1";
                          calls := {[ "channel1" := sampleCall ]};
                          enabledChannels := ∅ |} ]};
     connection := None |}.

(** A call with two users and a state for the first one only. *)
Definition sampleServerCall : ServerCallState :=
  {| start_at := 1000;
     users := ["user1"; "user2"];
     states := Some [ {| unmuted := true; raised_hand := 7 |} ];
     thread_id := "";
     screen_sharing_id := "";
     creator_id := "user1" |}.

Definition sampleResp : list ServerChannelState :=
  [ {| channel_id := "channel1"; enabled := true; call := Some sampleServerCall |} ].

(** ** Sessions: which server an action is about, which connections are open *)

(** The server an action names, when it names one. *)
Definition serverOf (a : Action) : option string :=
  match a with
  | ActLoadConfig serverUrl _ => Some serverUrl
  | ActLoadCalls serverUrl _ => Some serverUrl
  | ActCheckIsCallsPluginEnabled serverUrl => Some serverUrl
  | ActEnableChannelCalls serverUrl _ => Some serverUrl
  | ActDisableChannelCalls serverUrl _ => Some serverUrl
  | ActJoinCall serverUrl _ _ => Some serverUrl
  | ActEndCallAlert serverUrl _ _ => Some serverUrl
  | ActPress (PressEndCall serverUrl _) => Some serverUrl
  | _ => None
  end.

#[global] Instance CallsConnection_eq_dec : EqDecision CallsConnection.
Proof. solve_decision. Defined.

Fixpoint remove_one (c : CallsConnection) (l : list CallsConnection)
    : list CallsConnection :=
  match l with
  | [] => []
  | x :: l' => if decide (x = c) then l' else x :: remove_one c l'
  end.

(** The connections a trace leaves open: every resolved [newConnection]
    opens one, every [disconnect()] closes the one it is called on. *)
Definition openAfter (open : list CallsConnection) (e : Event)
    : list CallsConnection :=
  match e with
  | EvNewConnection _ _ (inr c) => c :: open
  | EvDisconnect c => remove_one c open
  | _ => open
  end.

Definition openConnections (tr : list Event) : list CallsConnection :=
  foldl openAfter [] tr.

(** The events of [leaveCall] and [joinCall] around the connection. *)
Definition disconnectOf (c : option CallsConnection) : list Event :=
  match c with
  | Some old => [EvDisconnect old]
  | None => []
  end.

(** [(e as ClientError).message || 'unable to complete command, see server logs'] *)
Definition messageOr (e : ClientError) : string :=
  if bool_decide (message e = "")
  then "unable to complete command, see server logs"
  else message e.

(** One turn of the [forEach] that collects the user ids in [loadCalls]. *)
Definition idsStep (ids : list string) (channel : ServerChannelState) : list string :=
  match call channel with
  | Some c => foldl set_add ids (users c)
  | None => ids
  end.


(** ** loadConfigAndCalls

    [loadConfigAndCalls] calls [loadConfig(serverUrl, true)] and [loadCalls]
    without awaiting them: each runs up to its first [await] when it is
    called, and the rest of each runs later, a step at every [await], in
    whatever order the answers come.  The two actions are therefore split at
    their [await]s. *)

Section Unawaited.
Context `{Imports}.

(** What is left of [loadConfig(serverUrl, true)] at one of its [await]s:
    the answer of [client.getCallsConfig()] is awaited, with [now] and
    [config] as read before; or [forceLogoutIfNecessary] is awaited. *)
Inductive ConfigTask :=
| AwaitCallsConfig (serverUrl : string) (now : Z) (config : CallsConfig)
    (answer : ClientError + gmap string JsValue)
| AwaitConfigLogout (serverUrl : string) (now : Z) (error : ClientError).

(** What is left of [loadCalls] at one of its [await]s. *)
Inductive CallsTask :=
| AwaitCalls (serverUrl userId : string)
    (answer : ClientError + list ServerChannelState)
| AwaitCallsLogout (error : ClientError).

(** [loadConfig(serverUrl, true)] from its call to its first [await]. *)
Definition startLoadConfig (env : Env) (serverUrl : string) : M (option ConfigTask) :=
  let now := Date_now env in
  config ← getCallsConfig serverUrl;
  c ← NetworkManager_getClient env serverUrl;
  match c with
  | inl error => mret None
  | inr client =>
      d ← request serverUrl ReqGetCallsConfig (resp_getCallsConfig client);
      mret (Some (AwaitCallsConfig serverUrl now config d))
  end.

(** [loadConfig] from one [await] to the next, or to its return. *)
Definition resumeConfig (t : ConfigTask) : M (option ConfigTask) :=
  match t with
  | AwaitCallsConfig serverUrl now config (inl error) =>
      forceLogoutIfNecessary serverUrl error;;
      mret (Some (AwaitConfigLogout serverUrl now error))
  | AwaitCallsConfig serverUrl now config (inr data) =>
      let nextConfig := mergeConfig config data now in
      setConfig serverUrl nextConfig;;
      mret None
  | AwaitConfigLogout serverUrl now error =>
      setConfig serverUrl (defaultConfigAt now);;
      mret None
  end.

(** [loadCalls] from its call to its first [await]. *)
Definition startLoadCalls (env : Env) (serverUrl userId : string)
    : M (option CallsTask) :=
  c ← NetworkManager_getClient env serverUrl;
  match c with
  | inl error => mret None
  | inr client =>
      r ← request serverUrl ReqGetCalls (resp_getCalls client);
      mret (Some (AwaitCalls serverUrl userId r))
  end.

(** [loadCalls] from one [await] to the next, or to its return. *)
Definition resumeCalls (t : CallsTask) : M (option CallsTask) :=
  match t with
  | AwaitCalls serverUrl userId (inl error) =>
      forceLogoutIfNecessary serverUrl error;;
      mret (Some (AwaitCallsLogout error))
  | AwaitCalls serverUrl userId (inr resp) =>
      let ids := collectIds resp in
      (if bool_decide (0 < length ids)%nat
       then fetchUsersByIds serverUrl ids else mret tt);;
      let res := foldl loadCallsStep (∅, ∅) resp in
      setCalls serverUrl userId res.1 res.2;;
      mret None
  | AwaitCallsLogout error => mret None
  end.

(** [if (res.data)] *)
Definition loadConfigAndCalls (env : Env) (serverUrl userId : string)
    : M (option ConfigTask * option CallsTask) :=
  res ← checkIsCallsPluginEnabled env serverUrl;
  if dataOrFalse res then
    config ← startLoadConfig env serverUrl;
    cs ← startLoadCalls env serverUrl userId;
    mret (config, cs)
  else mret (None, None).

(** One more step of a pending action, if it is still pending. *)
Definition advanceConfig (t : option ConfigTask) : M (option ConfigTask) :=
  match t with
  | Some t => resumeConfig t
  | None => mret None
  end.

Definition advanceCalls (t : option CallsTask) : M (option CallsTask) :=
  match t with
  | Some t => resumeCalls t
  | None => mret None
  end.

(** A pending action run to its return: it has two [await]s at most. *)
Definition finishConfig (t : option ConfigTask) : M unit :=
  t1 ← advanceConfig t; advanceConfig t1;; mret tt.

Definition finishCalls (t : option CallsTask) : M unit :=
  t1 ← advanceCalls t; advanceCalls t1;; mret tt.

(** The two pending actions run to their returns in the order a schedule
    gives: [true] lets [loadConfig] take its next step, [false] lets
    [loadCalls] take its next step; what is pending when the schedule ends
    is then finished. *)
Fixpoint interleave (schedule : list bool) (config : option ConfigTask)
    (cs : option CallsTask) : M unit :=
  match schedule with
  | [] => finishConfig config;; finishCalls cs
  | true :: schedule' =>
      config' ← advanceConfig config; interleave schedule' config' cs
  | false :: schedule' =>
      cs' ← advanceCalls cs; interleave schedule' config cs'
  end.

End Unawaited.

(** ** joinCall, a step at a time *)

(** How a [joinCall] ends: it returns a result, or its promise is rejected
    ([connection.disconnect()] in the [catch] on a null reference). *)
Inductive JoinOutcome :=
| Returned (r : ActionResult string)
| Threw.

(** What is left of a [joinCall] at one of its own [await]s, with the
    answer that is awaited. *)
Inductive JoinTask :=
| AwaitPermission (serverUrl channelId : string) (answer : bool)
| AwaitNewConnection (serverUrl channelId : string)
    (answer : ClientError + CallsConnection)
| AwaitJoinLogout (error : ClientError)
| AwaitReady (serverUrl channelId : string) (ready : bool)
| JoinDone (outcome : JoinOutcome).

Section JoinSteps.
Context `{Imports}.

(** [joinCall] from its call to [await hasMicrophonePermission(intl)].  The
    plugin check that comes first is run to its end here: runs in which
    another action takes a step during that check are left out. *)
Definition startJoinCall (env : Env) (serverUrl channelId : string)
    (intl : IntlShape) : M JoinTask :=
  r ← checkIsCallsPluginEnabled env serverUrl;
  let enabled := dataOrFalse r in
  if negb enabled
  then mret (JoinDone (Returned (Error (Literal "calls plugin not enabled"))))
  else
    hasPermission ← hasMicrophonePermission env intl;
    mret (AwaitPermission serverUrl channelId hasPermission).

(** [joinCall] from one of its [await]s to the next, or to its end.  The
    [catch] around [waitForReady()] disconnects what the module-level
    reference holds when it runs. *)
Definition resumeJoin (env : Env) (t : JoinTask) : M JoinTask :=
  match t with
  | AwaitPermission serverUrl channelId hasPermission =>
      if negb hasPermission
      then mret (JoinDone (Returned (Error (Literal
                   "no permissions to microphone, unable to start call"))))
      else
        dropConnection;;
        setSpeakerphoneOn false;;
        n ← newConnection env serverUrl channelId;
        mret (AwaitNewConnection serverUrl channelId n)
  | AwaitNewConnection serverUrl channelId (inl error) =>
      forceLogoutIfNecessary serverUrl error;;
      mret (AwaitJoinLogout error)
  | AwaitNewConnection serverUrl channelId (inr conn) =>
      setConnection (Some conn);;
      ready ← waitForReady conn;
      mret (AwaitReady serverUrl channelId ready)
  | AwaitJoinLogout error => mret (JoinDone (Returned (Error (Thrown error))))
  | AwaitReady serverUrl channelId ready =>
      if (ready : bool) then
        myselfJoinedCall serverUrl channelId;;
        mret (JoinDone (Returned (Data channelId)))
      else
        c ← getConnection;
        match c with
        | Some held =>
            emit (EvDisconnect held);;
            setConnection None;;
            mret (JoinDone (Returned (Error (Literal
                    "unable to connect to the voice call"))))
        | None => mret (JoinDone Threw)
        end
  | JoinDone outcome => mret (JoinDone outcome)
  end.

(** A started [joinCall] run to its end: three [await]s at most are left. *)
Definition finishJoin (env : Env) (t : JoinTask) : M JoinTask :=
  t1 ← resumeJoin env t; t2 ← resumeJoin env t1; resumeJoin env t2.

(** Two [joinCall]s, the second called while the first awaits the
    permission answer; then a schedule says which takes its next step:
    [true] the first, [false] the second. *)
Fixpoint interleaveJoins (schedule : list bool) (envA envB : Env)
    (a b : JoinTask) : M (JoinTask * JoinTask) :=
  match schedule with
  | [] => mret (a, b)
  | true :: schedule' =>
      a' ← resumeJoin envA a; interleaveJoins schedule' envA envB a' b
  | false :: schedule' =>
      b' ← resumeJoin envB b; interleaveJoins schedule' envA envB a b'
  end.

Definition twoJoinCalls (schedule : list bool)
    (envA : Env) (serverUrlA channelIdA : string) (intlA : IntlShape)
    (envB : Env) (serverUrlB channelIdB : string) (intlB : IntlShape)
    : M (JoinTask * JoinTask) :=
  a ← startJoinCall envA serverUrlA channelIdA intlA;
  b ← startJoinCall envB serverUrlB channelIdB intlB;
  interleaveJoins schedule envA envB a b.

(** The two calls step by step in turn, the first ahead. *)
Definition inTurn : list bool := [true; false; true; false; true; false].

End JoinSteps.

(** ** The file-type filter of the search results (src/unnamed/part_001) *)

(** [keyof FilterState] *)
Inductive FilterKey :=
| Documents | Spreadsheets | Presentations | Code | Images | Audio | Videos.

#[global] Instance FilterKey_eq_dec : EqDecision FilterKey.
Proof. solve_decision. Defined.

Definition keyName (k : FilterKey) : string :=
  match k with
  | Documents => "Documents"
  | Spreadsheets => "Spreadsheets"
  | Presentations => "Presentations"
  | Code => "Code"
  | Images => "Images"
  | Audio => "Audio"
  | Videos => "Videos"
  end.

(** A [FilterState] object: its own keys in insertion order, each once,
    with their values. *)
Definition FilterState : Type := list (FilterKey * bool).

(** [state[key]]: [None] is [undefined]. *)
Fixpoint field (state : FilterState) (key : FilterKey) : option bool :=
  match state with
  | [] => None
  | (k, v) :: state' => if decide (k = key) then Some v else field state' key
  end.

(** [state[key] = v]: an existing key keeps its place, a new one goes last. *)
Fixpoint assignField (state : FilterState) (key : FilterKey) (v : bool)
    : FilterState :=
  match state with
  | [] => [(key, v)]
  | (k, v') :: state' =>
      if decide (k = key) then (key, v) :: state'
      else (k, v') :: assignField state' key v
  end.

(** Truthiness of a field: [undefined] is falsy. *)
Definition truthy (v : option bool) : bool :=
  match v with
  | Some b => b
  | None => false
  end.

Definition clearedState : FilterState :=
  [(Documents, false); (Spreadsheets, false); (Presentations, false);
   (Code, false); (Images, false); (Audio, false); (Videos, false)].

(** The state [handleMyState(value)] hands to [setFilterState]. *)
Definition handleMyState (filterState : FilterState) (value : FilterKey)
    : FilterState :=
  let oldValue := field filterState value in
  let newState := filterState in
  assignField newState value (negb (truthy oldValue)).

(** The state [handleClearAll()] hands to [setFilterState]. *)
Definition handleClearAll : FilterState := clearedState.

(** The icon [renderLabelComponent] draws for an item. *)
Definition iconName (filterState : FilterState) (item : FilterKey) : string :=
  if truthy (field filterState item) then "check-circle" else "circle-outline".

(** [JSON.stringify] of a [FilterState]: [{"Documents":false,...}], the keys
    in the order of the object. *)
Definition dquote : string :=
  String (Ascii.Ascii false true false false false true false false) EmptyString.

Definition boolText (b : bool) : string := if b then "true" else "false".

Definition entryText (e : FilterKey * bool) : string :=
  dquote +:+ keyName e.1 +:+ dquote +:+ ":" +:+ boolText e.2.

Fixpoint entriesText (first : bool) (state : FilterState) : string :=
  match state with
  | [] => "}"
  | e :: state' =>
      (if first then EmptyString else ",") +:+ entryText e
      +:+ entriesText false state'
  end.

Definition JSON_stringify (state : FilterState) : string :=
  "{" +:+ entriesText true state.

(** What the effect on [filterState] and [initialState] stores in
    [enableShowResults], which the sheet passes on as [disableButton]. *)
Definition enableShowResults (filterState initialState : FilterState) : bool :=
  bool_decide (JSON_stringify filterState = JSON_stringify initialState).

(** How often an item was pressed. *)
Definition presses (key : FilterKey) (pressed : list FilterKey) : nat :=
  length (filter (λ k, k = key) pressed).


(** ** More sample data *)

Definition otherUrl : string := "https://other.example".

(** A system admin. *)
Definition adminUser : UserModel :=
  {| user_id := "user3"; roles := "system_admin system_user"; username := "root" |}.

Definition adminDatabase : Database :=
  {| db_currentUser := Some adminUser;
     db_channels := {[ "channel1" := sampleChannel ]};
     db_users := ∅;
     db_config := ∅;
     db_license := ∅;
     db_preferences := [] |}.

(** A connection whose [waitForReady()] is rejected, and a world that holds
    [sampleConnection]. *)
Definition deadConnection : CallsConnection :=
  {| conn_id := 2; conn_ready := false |}.

Definition inCallWorld : World :=
  {| callsConfigs := ∅; callsStates := ∅; connection := Some sampleConnection |}.

(** An environment whose [newConnection] is rejected. *)
Definition envNoConnection : Env :=
  {| Date_now := 5000000;
     env_getClient := λ _, inr (clientOk ∅ []);
     env_hasMicrophonePermission := true;
     env_newConnection := λ _ _, inl sampleError;
     env_serverDatabases := ∅ |}.

(** An environment without the microphone permission. *)
Definition envNoMicrophone : Env :=
  {| Date_now := 5000000;
     env_getClient := λ _, inr (clientOk ∅ []);
     env_hasMicrophonePermission := false;
     env_newConnection := λ _ _, inr sampleConnection;
     env_serverDatabases := ∅ |}.

(** A second connection that gets ready. *)
Definition otherConnection : CallsConnection :=
  {| conn_id := 3; conn_ready := true |}.

(** An environment that opens a connection of its own for channel2. *)
Definition envTwoChannels : Env :=
  {| Date_now := 5000000;
     env_getClient := λ _, inr (clientOk ∅ []);
     env_hasMicrophonePermission := true;
     env_newConnection := λ _ channelId,
       inr (if bool_decide (channelId = "channel2")
            then otherConnection else sampleConnection);
     env_serverDatabases := ∅ |}.

(** A filter state with documents and images on. *)
Definition sampleFilter : FilterState :=
  [(Documents, true); (Spreadsheets, false); (Presentations, false);
   (Code, false); (Images, true); (Audio, false); (Videos, false)].

(** * Tactics *)

(** Running a computation of the monad. *)
Ltac run_with tac :=
  repeat (tac;
          unfold ignore, request, NetworkManager_getClient, forceLogoutIfNecessary,
            setConfig, setCalls, setChannelEnabled, setPluginEnabled,
            myselfJoinedCall, myselfLeftCall, setSpeakerphoneOn, setSpeakerPhone,
            getCallsConfig, getCallsState, getConnection, setConnection,
            fetchUsersByIds, hasMicrophonePermission, newConnection, waitForReady,
            Alert_alert, emit, result, final, events,
            mbind, M_bind, mret, M_ret in *;
          cbn in *).
Ltac run := run_with idtac.

Ltac break_match :=
  match goal with
  | |- context [negb ?x] => destruct x eqn:?
  | H : context [negb ?x] |- _ => destruct x eqn:?
  | |- context [match ?x with _ => _ end] => destruct x eqn:?
  | H : context [match ?x with _ => _ end] |- _ => destruct x eqn:?
  end.

Ltac run_cases := run_with ltac:(try break_match; simplify_eq).

Ltac ends_with := first [ reflexivity | apply suffix_cons_r; ends_with ].

Ltac in_trace :=
  first [ apply list_elem_of_here | apply list_elem_of_further; in_trace ].

Ltac not_in_trace :=
  let Hin := fresh "Hin" in
  intros Hin;
  repeat (apply elem_of_cons in Hin; destruct Hin as [Hin|Hin];
          [discriminate Hin |]);
  exact (proj1 (elem_of_nil _) Hin).

Ltac unfold_join :=
  unfold reachesWaitForReady, joinCall, leaveCall, checkIsCallsPluginEnabled,
    dropConnection, dataOrFalse in *.

Ltac unfold_actions :=
  unfold perform, loadConfig, fetchConfig, loadCalls, enableChannelCalls,
    disableChannelCalls, endCallAlert, press, endCall, muteMyself, unmuteMyself,
    raiseHand, unraiseHand, onConnection in *;
  unfold_join.

(** * Properties *)

Section Properties.
Context `{Imports}.

Lemma or_zero_some (t : Z) : or_zero (Some t) = t.
Proof. unfold or_zero. destruct (Z.eqb_spec t 0); congruence. Qed.

(** ** The config-refresh gate *)

Lemma loadConfig_forced env serverUrl w :
  loadConfig env serverUrl true w
  = fetchConfig env serverUrl (Date_now env) (storedConfig serverUrl w) w.
Proof.
  unfold loadConfig, storedConfig. run.
  by destruct (fetchConfig _ _ _ _ _) as [[??]?].
Qed.

Lemma loadConfig_fresh env serverUrl w t :
  last_retrieved_at (storedConfig serverUrl w) = Some t →
  Date_now env - t < RefreshConfigMillis →
  loadConfig env serverUrl false w = (Data (storedConfig serverUrl w), w, []).
Proof.
  intros Ht Hlt. unfold loadConfig, storedConfig in *. run.
  rewrite Ht, or_zero_some.
  destruct (Z.ltb_spec (Date_now env - t) RefreshConfigMillis); [done | lia].
Qed.

(** Either the gate answers from the cache, silently, or the action is the
    fetch. *)
Lemma loadConfig_cases env serverUrl force w :
  loadConfig env serverUrl force w = (Data (storedConfig serverUrl w), w, [])
  ∨ loadConfig env serverUrl force w
    = fetchConfig env serverUrl (Date_now env) (storedConfig serverUrl w) w.
Proof.
  unfold loadConfig, storedConfig. run.
  destruct force; cbn.
  { right. by destruct (fetchConfig _ _ _ _ _) as [[??]?]. }
  destruct (_ <? _); [by left | right].
  by destruct (fetchConfig _ _ _ _ _) as [[??]?].
Qed.

Lemma fetchConfig_stamp env serverUrl now ts config w :
  result (fetchConfig env serverUrl now
            {| last_retrieved_at := ts; flags := flags config |}
            (stamp serverUrl ts w))
  = result (fetchConfig env serverUrl now config w)
  ∧ events (fetchConfig env serverUrl now
              {| last_retrieved_at := ts; flags := flags config |}
              (stamp serverUrl ts w))
    = events (fetchConfig env serverUrl now config w).
Proof.
  unfold fetchConfig. run.
  destruct (env_getClient env serverUrl) as [e|client]; run; [done |].
  destruct (resp_getCallsConfig client) as [e|data]; by run.
Qed.

Lemma storedConfig_stamp serverUrl ts w :
  storedConfig serverUrl (stamp serverUrl ts w)
  = {| last_retrieved_at := ts; flags := flags (storedConfig serverUrl w) |}.
Proof. unfold storedConfig, stamp. run. by rewrite lookup_insert_eq. Qed.

(** C1: with [force = false] and a cached config retrieved less than
    [RefreshConfigMillis] ago, [loadConfig] returns [{data: config}] for the
    cached config, calls no collaborator (no client lookup, no request) and
    leaves the state as it was.  With [force = true] the gate is skipped
    whatever the timestamp: the action is the fetch, which starts with the
    client lookup and issues the config request as soon as a client is
    there; neither its result nor its calls depend on the cached
    timestamp. *)
Theorem loadConfig_gate env serverUrl w :
  (∀ t, last_retrieved_at (storedConfig serverUrl w) = Some t →
        Date_now env - t < RefreshConfigMillis →
        loadConfig env serverUrl false w = (Data (storedConfig serverUrl w), w, []))
  ∧ loadConfig env serverUrl true w
    = fetchConfig env serverUrl (Date_now env) (storedConfig serverUrl w) w
  ∧ head (events (loadConfig env serverUrl true w)) = Some (EvGetClient serverUrl)
  ∧ (∀ client, env_getClient env serverUrl = inr client →
        events (loadConfig env serverUrl true w) !! 1%nat
        = Some (EvRequest serverUrl ReqGetCallsConfig))
  ∧ (∀ ts, result (loadConfig env serverUrl true (stamp serverUrl ts w))
           = result (loadConfig env serverUrl true w)
           ∧ events (loadConfig env serverUrl true (stamp serverUrl ts w))
             = events (loadConfig env serverUrl true w)).
Proof.
  split; [by apply loadConfig_fresh |].
  split; [by apply loadConfig_forced |].
  repeat split.
  - rewrite loadConfig_forced. unfold fetchConfig. run.
    destruct (env_getClient env serverUrl) as [e|client]; run; [done |].
    destruct (resp_getCallsConfig client); by run.
  - intros client Hc. rewrite loadConfig_forced. unfold fetchConfig. run.
    rewrite Hc. run. destruct (resp_getCallsConfig client); by run.
  - rewrite !loadConfig_forced, storedConfig_stamp. apply fetchConfig_stamp.
  - rewrite !loadConfig_forced, storedConfig_stamp. apply fetchConfig_stamp.
Qed.

(** ** A failed and a successful config fetch *)

(** C2: when the config request is made and fails, [loadConfig] returns
    [{error}] with the error thrown, and the config stored for the server is
    [DefaultCallsConfig] with [last_retrieved_at] set to the current time,
    whatever was cached before; the handler [forceLogoutIfNecessary] runs
    before the reset. *)
Theorem loadConfig_fetch_error env serverUrl force w client error :
  env_getClient env serverUrl = inr client →
  resp_getCallsConfig client = inl error →
  EvRequest serverUrl ReqGetCallsConfig ∈ events (loadConfig env serverUrl force w) →
  let r := loadConfig env serverUrl force w in
  result r = Error (Thrown error)
  ∧ storedConfig serverUrl (final r) = defaultConfigAt (Date_now env)
  ∧ last_retrieved_at (storedConfig serverUrl (final r)) = Some (Date_now env)
  ∧ flags (storedConfig serverUrl (final r)) = flags DefaultCallsConfig
  ∧ events r
    = [EvGetClient serverUrl; EvRequest serverUrl ReqGetCallsConfig;
       EvForceLogoutIfNecessary serverUrl error;
       EvSetConfig serverUrl (defaultConfigAt (Date_now env))].
Proof.
  intros Hc He Hreq r. subst r.
  destruct (loadConfig_cases env serverUrl force w) as [Hl|Hl]; rewrite Hl in *.
  { cbn in Hreq. by apply elem_of_nil in Hreq. }
  clear Hl Hreq. unfold fetchConfig, storedConfig. run. rewrite Hc. run.
  rewrite He. run. by rewrite lookup_insert_eq.
Qed.

(** C3, as amended: on a successful fetch the stored config becomes the
    cached config overlaid with the fetched data and stamped with the
    current time: it is what [loadConfig] returns under [data], every fetched
    field has the fetched value, and a field the fetched data does not have
    keeps the value it had in the cached config. *)
Theorem loadConfig_fetch_success env serverUrl force w client data :
  env_getClient env serverUrl = inr client →
  resp_getCallsConfig client = inr data →
  EvRequest serverUrl ReqGetCallsConfig ∈ events (loadConfig env serverUrl force w) →
  let old := storedConfig serverUrl w in
  let r := loadConfig env serverUrl force w in
  let new := storedConfig serverUrl (final r) in
  result r = Data new
  ∧ new = mergeConfig old data (Date_now env)
  ∧ events r = [EvGetClient serverUrl; EvRequest serverUrl ReqGetCallsConfig;
                EvSetConfig serverUrl (mergeConfig old data (Date_now env))]
  ∧ last_retrieved_at new = Some (Date_now env)
  ∧ (∀ k v, data !! k = Some v → flags new !! k = Some v)
  ∧ (∀ k, data !! k = None → flags new !! k = flags old !! k).
Proof.
  intros Hc Hd Hreq old r new. subst old new r.
  destruct (loadConfig_cases env serverUrl force w) as [Hl|Hl]; rewrite Hl in *.
  { cbn in Hreq. by apply elem_of_nil in Hreq. }
  clear Hl Hreq. unfold fetchConfig, storedConfig. run. rewrite Hc. run.
  rewrite Hd. run. rewrite lookup_insert_eq. cbn.
  do 4 (split; [done |]). split.
  - intros k v Hk. by apply lookup_union_Some_l.
  - intros k Hk. by apply lookup_union_r.
Qed.

(** ** Joining and leaving a call *)

(** C4: [joinCall] answers [{error: 'calls plugin not enabled'}] when the
    plugin check reports false and an error whenever the microphone may not
    be used; when it gets to [waitForReady()] and that succeeds it calls
    [myselfJoinedCall] and returns [{data: channelId}], holding the new
    connection; when [waitForReady()] fails it disconnects the new
    connection, nulls the module-level reference and returns
    [{error: 'unable to connect to the voice call'}] without calling
    [myselfJoinedCall]; and a [{data}] result or a call of
    [myselfJoinedCall] happens on no other path. *)
Theorem joinCall_outcomes env serverUrl channelId intl w :
  let r := joinCall env serverUrl channelId intl w in
  (result (checkIsCallsPluginEnabled env serverUrl w) = Data false →
   result r = Error (Literal "calls plugin not enabled"))
  ∧ (result (checkIsCallsPluginEnabled env serverUrl w) = Data true →
     env_hasMicrophonePermission env = false →
     result r = Error (Literal "no permissions to microphone, unable to start call"))
  ∧ (env_hasMicrophonePermission env = false → ∃ e, result r = Error e)
  ∧ (∀ conn, reachesWaitForReady env serverUrl channelId w conn →
       conn_ready conn = true →
       result r = Data channelId
       ∧ connection (final r) = Some conn
       ∧ [EvWaitForReady conn; EvMyselfJoinedCall serverUrl channelId]
         `suffix_of` events r)
  ∧ (∀ conn, reachesWaitForReady env serverUrl channelId w conn →
       conn_ready conn = false →
       result r = Error (Literal "unable to connect to the voice call")
       ∧ connection (final r) = None
       ∧ [EvWaitForReady conn; EvDisconnect conn] `suffix_of` events r
       ∧ ∀ u c, EvMyselfJoinedCall u c ∉ events r)
  ∧ ((∃ d, result r = Data d) ∨ (∃ u c, EvMyselfJoinedCall u c ∈ events r) →
     result r = Data channelId
     ∧ EvMyselfJoinedCall serverUrl channelId ∈ events r
     ∧ ∃ conn, reachesWaitForReady env serverUrl channelId w conn
               ∧ conn_ready conn = true).
Proof.
  intros r. subst r.
  split; [| split; [| split; [| split; [| split]]]].
  - intros Hc. unfold_join. run_cases; done.
  - intros Hc Hp. unfold_join. run_cases; done.
  - intros Hp. unfold_join. run_cases; by eexists.
  - intros conn (Hc & Hp & Hn) Hr. unfold_join.
    run_cases; (split; [done | split; [done | ends_with]]).
  - intros conn (Hc & Hp & Hn) Hr. unfold_join.
    run_cases; (split; [done | split; [done | split; [ends_with |]]]);
      intros u ch; not_in_trace.
  - unfold_join. run_cases;
      (intros [[d Hd]|(u & ch & Hin)];
       [try discriminate Hd | try (exfalso; revert Hin; not_in_trace)]);
      (split; [done | split; [in_trace | eexists; done]]).
Qed.

(** Every action keeps the module-level reference in step with what its
    calls on connections say. *)
Lemma perform_held env a w :
  connection (final (perform env a w))
  = foldl heldAfter (connection w) (events (perform env a w)).
Proof. destruct a; unfold_actions; run_cases; done. Qed.

Lemma performAll_held l w :
  connection (final (performAll l w))
  = foldl heldAfter (connection w) (events (performAll l w)).
Proof.
  revert w. induction l as [|[env a] l IH]; intros w; [done |].
  specialize (perform_held env a w) as Ha.
  cbn [performAll]. unfold mbind, M_bind, final, events in *.
  destruct (perform env a w) as [[[] w1] t1]. cbn in Ha.
  specialize (IH w1). destruct (performAll l w1) as [[[] w2] t2]. cbn in *.
  by rewrite foldl_app, <- Ha.
Qed.

(** Only [joinCall] creates connections. *)
Lemma newConnection_only_joinCall env a w u ch res :
  EvNewConnection u ch res ∈ events (perform env a w) →
  ∃ intl, a = ActJoinCall u ch intl.
Proof.
  destruct a; unfold_actions; run_cases;
    intros Hin; try (exfalso; revert Hin; not_in_trace);
    repeat (apply elem_of_cons in Hin; destruct Hin as [Hin|Hin];
            [by simplify_eq; eexists |]);
    by apply elem_of_nil in Hin.
Qed.

(** C5: the module-level reference is null after [leaveCall]; it is null
    after a [joinCall] that called [disconnect()] and did not end with a
    ready connection; and through any session that starts without a
    connection it is exactly the connection the trace says is held: the one
    the latest resolved [newConnection] created, and none once a
    [disconnect()] came after it; [newConnection] is called by [joinCall]
    only. *)
Theorem connection_nulled_on_disconnect :
  (∀ w, connection (final (leaveCall w)) = None)
  ∧ (∀ env serverUrl channelId intl w,
       let r := joinCall env serverUrl channelId intl w in
       (∃ c, EvDisconnect c ∈ events r) → (∀ d, result r ≠ Data d) →
       connection (final r) = None)
  ∧ (∀ l w0, connection w0 = None →
       connection (final (performAll l w0)) = held (events (performAll l w0)))
  ∧ (∀ env a w u ch res,
       EvNewConnection u ch res ∈ events (perform env a w) →
       ∃ intl, a = ActJoinCall u ch intl).
Proof.
  split; [| split; [| split]]; [| | | apply newConnection_only_joinCall].
  - intros w. unfold_actions. run_cases; done.
  - intros env serverUrl channelId intl w r. subst r. unfold_actions.
    run_cases; intros [held_c Hin] Hd; try done;
      try (by destruct (Hd channelId));
      exfalso; revert Hin; not_in_trace.
  - intros l w0 H0. rewrite performAll_held, H0. done.
Qed.

(** C10: without a connection, [muteMyself], [unmuteMyself], [raiseHand]
    and [unraiseHand] call nothing and change nothing. *)
Theorem connection_actions_without_connection w :
  connection w = None →
  muteMyself w = (tt, w, [])
  ∧ unmuteMyself w = (tt, w, [])
  ∧ raiseHand w = (tt, w, [])
  ∧ unraiseHand w = (tt, w, []).
Proof. intros Hc. unfold_actions. run. rewrite Hc. done. Qed.

(** ** Requests that fail *)

(** C6: when the request of [enableChannelCalls] or [disableChannelCalls]
    fails, the action returns [{error}] with the error thrown and the state,
    the channel's flag included, is as before; when it succeeds, the
    channel's flag is true after enabling and false after disabling, the
    flags of other channels stay, and the action returns [{}].  Either way
    the request is made once. *)
Theorem channel_toggle env serverUrl channelId w client :
  env_getClient env serverUrl = inr client →
  let en := enableChannelCalls env serverUrl channelId w in
  let dis := disableChannelCalls env serverUrl channelId w in
  (∀ error, resp_enableChannelCalls client channelId = inl error →
     result en = Error (Thrown error) ∧ final en = w
     ∧ events en = [EvGetClient serverUrl;
                    EvRequest serverUrl (ReqEnableChannelCalls channelId);
                    EvForceLogoutIfNecessary serverUrl error])
  ∧ (∀ u, resp_enableChannelCalls client channelId = inr u →
     result en = Empty
     ∧ channelEnabled serverUrl channelId (final en) = Some true
     ∧ (∀ other, other ≠ channelId →
          channelEnabled serverUrl other (final en) = channelEnabled serverUrl other w)
     ∧ events en = [EvGetClient serverUrl;
                    EvRequest serverUrl (ReqEnableChannelCalls channelId);
                    EvSetChannelEnabled serverUrl channelId true])
  ∧ (∀ error, resp_disableChannelCalls client channelId = inl error →
     result dis = Error (Thrown error) ∧ final dis = w
     ∧ events dis = [EvGetClient serverUrl;
                     EvRequest serverUrl (ReqDisableChannelCalls channelId);
                     EvForceLogoutIfNecessary serverUrl error])
  ∧ (∀ u, resp_disableChannelCalls client channelId = inr u →
     result dis = Empty
     ∧ channelEnabled serverUrl channelId (final dis) = Some false
     ∧ (∀ other, other ≠ channelId →
          channelEnabled serverUrl other (final dis) = channelEnabled serverUrl other w)
     ∧ events dis = [EvGetClient serverUrl;
                     EvRequest serverUrl (ReqDisableChannelCalls channelId);
                     EvSetChannelEnabled serverUrl channelId false]).
Proof.
  intros Hc en dis. subst en dis.
  unfold enableChannelCalls, disableChannelCalls, channelEnabled, setCallsState.
  run. rewrite Hc. run.
  split; [| split; [| split]].
  - intros error ->. by run.
  - intros u ->. run. rewrite !lookup_insert_eq. cbn.
    rewrite lookup_insert_eq. do 2 (split; [done |]). split; [| done].
    intros other Hne. by rewrite lookup_insert_ne.
  - intros error ->. by run.
  - intros u ->. run. rewrite !lookup_insert_eq. cbn.
    rewrite lookup_insert_eq. do 2 (split; [done |]). split; [| done].
    intros other Hne. by rewrite lookup_insert_ne.
Qed.

(** C7: in [loadConfig], [loadCalls], [checkIsCallsPluginEnabled],
    [enableChannelCalls] and [disableChannelCalls], a request that fails is
    followed by [forceLogoutIfNecessary] on the error thrown, and the action
    returns [{error}] with that error; the request appears once in the
    trace, so nothing is retried.  [loadConfig] makes its request when it is
    forced or when the stored config is [RefreshConfigMillis] old or older,
    and only then. *)
Theorem rest_failures_surfaced env serverUrl w client error :
  env_getClient env serverUrl = inr client →
  (resp_getCallsConfig client = inl error →
   ∀ force,
     force = true
     ∨ RefreshConfigMillis
       ≤ Date_now env - or_zero (last_retrieved_at (storedConfig serverUrl w)) →
     result (loadConfig env serverUrl force w) = Error (Thrown error)
     ∧ events (loadConfig env serverUrl force w)
       = [EvGetClient serverUrl; EvRequest serverUrl ReqGetCallsConfig;
          EvForceLogoutIfNecessary serverUrl error;
          EvSetConfig serverUrl (defaultConfigAt (Date_now env))])
  ∧ (resp_getCalls client = inl error →
     ∀ userId,
       result (loadCalls env serverUrl userId w) = Error (Thrown error)
       ∧ events (loadCalls env serverUrl userId w)
         = [EvGetClient serverUrl; EvRequest serverUrl ReqGetCalls;
            EvForceLogoutIfNecessary serverUrl error])
  ∧ (resp_getPluginsManifests client = inl error →
     result (checkIsCallsPluginEnabled env serverUrl w) = Error (Thrown error)
     ∧ events (checkIsCallsPluginEnabled env serverUrl w)
       = [EvGetClient serverUrl; EvRequest serverUrl ReqGetPluginsManifests;
          EvForceLogoutIfNecessary serverUrl error])
  ∧ (∀ channelId, resp_enableChannelCalls client channelId = inl error →
     result (enableChannelCalls env serverUrl channelId w) = Error (Thrown error)
     ∧ events (enableChannelCalls env serverUrl channelId w)
       = [EvGetClient serverUrl;
          EvRequest serverUrl (ReqEnableChannelCalls channelId);
          EvForceLogoutIfNecessary serverUrl error])
  ∧ (∀ channelId, resp_disableChannelCalls client channelId = inl error →
     result (disableChannelCalls env serverUrl channelId w) = Error (Thrown error)
     ∧ events (disableChannelCalls env serverUrl channelId w)
       = [EvGetClient serverUrl;
          EvRequest serverUrl (ReqDisableChannelCalls channelId);
          EvForceLogoutIfNecessary serverUrl error]).
Proof.
  intros Hc. split; [| split; [| split; [| split]]].
  - intros He force Hgate.
    assert (loadConfig env serverUrl force w
            = fetchConfig env serverUrl (Date_now env) (storedConfig serverUrl w) w)
      as ->.
    { destruct Hgate as [->|Hstale]; [apply loadConfig_forced |].
      destruct force; [apply loadConfig_forced |].
      unfold loadConfig, storedConfig in *. run.
      destruct (Z.ltb_spec
                  (Date_now env
                   - or_zero (last_retrieved_at
                                (default DefaultCallsConfig
                                   (callsConfigs w !! serverUrl))))
                  RefreshConfigMillis); [lia |].
      by destruct (fetchConfig _ _ _ _ _) as [[??]?]. }
    unfold fetchConfig. run. rewrite Hc. run. rewrite He. by run.
  - intros He userId. unfold loadCalls. run. rewrite Hc. run. rewrite He. by run.
  - intros He. unfold checkIsCallsPluginEnabled. run. rewrite Hc. run.
    rewrite He. by run.
  - intros channelId He. unfold enableChannelCalls. run. rewrite Hc. run.
    rewrite He. by run.
  - intros channelId He. unfold disableChannelCalls. run. rewrite Hc. run.
    rewrite He. by run.
Qed.

(** ** The participants of a loaded call *)

Lemma reduce_from_notin c l i acc u :
  u ∉ l → reduce_from (addParticipant c) l i acc !! u = acc !! u.
Proof.
  revert i acc. induction l as [|x l IH]; intros i acc Hnot; [done |].
  apply not_elem_of_cons in Hnot as [Hne Hnot]. cbn.
  rewrite IH by done. unfold addParticipant. by rewrite lookup_insert_ne.
Qed.

Lemma reduce_from_last c l i acc k u :
  l !! k = Some u → u ∉ drop (S k) l →
  reduce_from (addParticipant c) l i acc !! u = Some (participantAt c u (i + k)).
Proof.
  revert i acc k. induction l as [|x l IH]; intros i acc k Hk Hlast; [done |].
  destruct k as [|k]; cbn in *.
  - simplify_eq. rewrite drop_0 in Hlast.
    rewrite reduce_from_notin by done. unfold addParticipant.
    by rewrite lookup_insert_eq, Nat.add_0_r.
  - rewrite (IH (S i) _ k) by done. do 2 f_equal. lia.
Qed.

Lemma reduce_from_is_Some c l i acc u :
  is_Some (reduce_from (addParticipant c) l i acc !! u)
  ↔ u ∈ l ∨ is_Some (acc !! u).
Proof.
  revert i acc. induction l as [|x l IH]; intros i acc; cbn.
  - rewrite elem_of_nil. tauto.
  - rewrite IH, elem_of_cons. unfold addParticipant.
    destruct (decide (x = u)) as [->|Hne].
    + rewrite lookup_insert_eq. split; [intros _; by left; left | eauto].
    + rewrite lookup_insert_ne by done.
      split; [tauto | intros [[Heq|?]|?]; [congruence | tauto | tauto]].
Qed.

Lemma buildParticipants_is_Some c u :
  is_Some (buildParticipants c !! u) ↔ u ∈ users c.
Proof.
  unfold buildParticipants, reduce. rewrite reduce_from_is_Some.
  rewrite lookup_empty. split; [intros [?|[? ?]]; done | by left].
Qed.

Lemma buildParticipants_last c k u :
  users c !! k = Some u → u ∉ drop (S k) (users c) →
  buildParticipants c !! u = Some (participantAt c u k).
Proof.
  intros Hk Hlast. unfold buildParticipants, reduce.
  by rewrite (reduce_from_last c _ 0%nat _ k).
Qed.

Lemma loadCallsStep_other l acc k :
  (∀ ch, ch ∈ l → channel_id ch = k → call ch = None) →
  (foldl loadCallsStep acc l).1 !! k = acc.1 !! k.
Proof.
  revert acc. induction l as [|x l IH]; intros acc Hl; [done |]. cbn.
  rewrite IH by (intros; apply Hl; [by apply list_elem_of_further | done]).
  unfold loadCallsStep. cbn.
  destruct (call x) eqn:Hx; [| done].
  destruct (decide (channel_id x = k)) as [Hk|Hk].
  - rewrite (Hl x) in Hx; [done | apply list_elem_of_here | done].
  - by rewrite lookup_insert_ne.
Qed.

Lemma loadCallsStep_last resp acc i channel c :
  resp !! i = Some channel → call channel = Some c →
  (∀ j ch, (i < j)%nat → resp !! j = Some ch →
           channel_id ch = channel_id channel → call ch = None) →
  (foldl loadCallsStep acc resp).1 !! channel_id channel = Some (toCall channel c).
Proof.
  intros Hi Hc Hlater.
  rewrite <- (take_drop_middle resp i channel Hi), foldl_app. cbn.
  rewrite loadCallsStep_other.
  - unfold loadCallsStep at 1. cbn. by rewrite Hc, lookup_insert_eq.
  - intros ch Hin Hid. apply list_elem_of_lookup in Hin as [j Hj].
    rewrite lookup_drop in Hj. apply (Hlater (S i + j)%nat); [lia | done | done].
Qed.

(** C9: after a [loadCalls] whose request succeeds, the call stored for a
    channel that came with one has a participant for every user id of
    [call.users] and for no other id; the participant of a user (built at
    the user's index, the last one if the id comes more than once) is muted
    with no raised hand when [call.states] has no entry at that index, and
    has [muted = !unmuted] and [raisedHand = raised_hand] of the entry
    otherwise. *)
Theorem loadCalls_participants env serverUrl userId w client resp i channel c :
  env_getClient env serverUrl = inr client →
  resp_getCalls client = inr resp →
  resp !! i = Some channel →
  call channel = Some c →
  (∀ j ch, (i < j)%nat → resp !! j = Some ch →
           channel_id ch = channel_id channel → call ch = None) →
  let r := loadCalls env serverUrl userId w in
  ∃ cs en theCall,
    result r = Data (cs, en)
    ∧ calls (result (getCallsState serverUrl (final r))) = cs
    ∧ cs !! channel_id channel = Some theCall
    ∧ (∀ u, is_Some (participants theCall !! u) ↔ u ∈ users c)
    ∧ (∀ k u, users c !! k = Some u → u ∉ drop (S k) (users c) →
         states c ≫= (λ ss, ss !! k) = None →
         participants theCall !! u
         = Some {| id := u; muted := true; raisedHand := 0 |})
    ∧ (∀ k u st, users c !! k = Some u → u ∉ drop (S k) (users c) →
         states c ≫= (λ ss, ss !! k) = Some st →
         participants theCall !! u
         = Some {| id := u; muted := negb (unmuted st);
                   raisedHand := raised_hand st |}).
Proof.
  intros Hcl Hresp Hi Hc Hlater r. subst r.
  exists (foldl loadCallsStep (∅, ∅) resp).1, (foldl loadCallsStep (∅, ∅) resp).2,
         (toCall channel c).
  unfold loadCalls. run. rewrite Hcl. run. rewrite Hresp. run.
  split; [| split; [| split; [| split; [| split]]]].
  - destruct (bool_decide _); run; by destruct (foldl _ _ _).
  - destruct (bool_decide _); run; unfold setCallsState; cbn;
      by rewrite lookup_insert_eq.
  - by apply (loadCallsStep_last resp _ i).
  - intros u. apply buildParticipants_is_Some.
  - intros k u Hk Hlast Hst. unfold toCall. cbn [participants].
    rewrite (buildParticipants_last c k u) by done.
    unfold participantAt, mbind. by rewrite Hst.
  - intros k u st Hk Hlast Hst. unfold toCall. cbn [participants].
    rewrite (buildParticipants_last c k u) by done.
    unfold participantAt, mbind. by rewrite Hst.
Qed.

(** ** Ending a call *)

Lemma permissionAlert_offers_nothing intl : ¬ offersEndCall (permissionAlert intl).
Proof.
  intros (title & msg & buttons & b & u & ch & Heq & Hb & _).
  unfold permissionAlert in Heq. simplify_eq. by apply elem_of_nil in Hb.
Qed.

(** Only pressing the button of the confirmation dialog issues the
    [endCall] request. *)
Lemma endCall_request_only_pressed env a w u ch :
  EvRequest u (ReqEndCall ch) ∈ events (perform env a w) →
  a = ActPress (PressEndCall u ch).
Proof.
  destruct a; unfold_actions; run_cases;
    intros Hin; try (exfalso; revert Hin; not_in_trace);
    repeat (apply elem_of_cons in Hin; destruct Hin as [Hin|Hin];
            [by simplify_eq |]);
    by apply elem_of_nil in Hin.
Qed.

(** C8, as amended: when the server database, the current user, the channel
    and a call of the channel all exist and the current user is neither a
    system admin nor the creator of the call, [endCallAlert] shows the
    permission alert, which has no button, and nothing else; when one of the
    four is missing it shows nothing.  It never issues the [endCall] request
    itself; a dialog that offers the request is shown only when all four
    exist and the user is a system admin or the creator; and among all the
    actions only pressing that button issues the request. *)
Theorem endCallAlert_permission env serverUrl intl channelId w :
  let r := endCallAlert env serverUrl intl channelId w in
  final r = w
  ∧ (∀ database currentUser channel c,
       env_serverDatabases env !! serverUrl = Some database →
       db_currentUser database = Some currentUser →
       db_channels database !! channelId = Some channel →
       calls (result (getCallsState serverUrl w)) !! channelId = Some c →
       isSystemAdmin (roles currentUser) = false →
       user_id currentUser ≠ creatorId c →
       events r = [permissionAlert intl] ∧ ¬ offersEndCall (permissionAlert intl))
  ∧ (endCallContext env serverUrl channelId w = None → events r = [])
  ∧ (∀ e, e ∈ events r → ¬ isEndCallRequest e)
  ∧ (∀ e, e ∈ events r → offersEndCall e →
       ∃ database currentUser channel c,
         env_serverDatabases env !! serverUrl = Some database
         ∧ db_currentUser database = Some currentUser
         ∧ db_channels database !! channelId = Some channel
         ∧ calls (result (getCallsState serverUrl w)) !! channelId = Some c
         ∧ (isSystemAdmin (roles currentUser) = true
            ∨ user_id currentUser = creatorId c))
  ∧ (∀ env' a w' u ch,
       EvRequest u (ReqEndCall ch) ∈ events (perform env' a w') →
       a = ActPress (PressEndCall u ch)).
Proof.
  intros r. subst r.
  split; [| split; [| split; [| split; [| split]]]].
  - unfold endCallAlert. run_cases; done.
  - intros database currentUser channel c Hdb Hu Hch Hcall Hadm Hne.
    split; [| apply permissionAlert_offers_nothing].
    unfold endCallAlert. rewrite Hdb, Hu, Hch. run. rewrite Hcall, Hadm.
    by rewrite bool_decide_eq_false_2.
  - unfold endCallContext, endCallAlert. run.
    destruct (env_serverDatabases env !! serverUrl) as [database|]; cbn; [| done].
    destruct (db_currentUser database) as [currentUser|]; cbn; [| done].
    destruct (db_channels database !! channelId) as [channel|]; cbn; [| done].
    destruct (calls _ !! channelId); cbn; done.
  - intros e Hin (u & ch & ->). revert Hin.
    unfold endCallAlert. run_cases; not_in_trace.
  - intros e Hin Hoff. revert Hin. unfold endCallAlert. run.
    destruct (env_serverDatabases env !! serverUrl) as [database|] eqn:Hdb;
      [| by intros ?%elem_of_nil].
    destruct (db_currentUser database) as [currentUser|] eqn:Hu;
      [| by intros ?%elem_of_nil].
    destruct (db_channels database !! channelId) as [channel|] eqn:Hch;
      [| by intros ?%elem_of_nil].
    run. destruct (calls _ !! channelId) as [c|] eqn:Hcall;
      [| by intros ?%elem_of_nil].
    intros Hin.
    exists database, currentUser, channel, c. do 4 (split; [done |]).
    destruct (isSystemAdmin (roles currentUser)); [by left |]. cbn in Hin.
    case_bool_decide; [by right |]. cbn in Hin.
    apply list_elem_of_singleton in Hin. subst e.
    by destruct (permissionAlert_offers_nothing intl).
  - intros env' a w' u ch. apply endCall_request_only_pressed.
Qed.

End Properties.

(** * The statements at sample inputs *)

Lemma loadConfig_gate_witness :
  last_retrieved_at (storedConfig (H := sampleImports) sampleUrl cachedWorld)
  = Some 1000
  ∧ 2000 - 1000 < 1200000
  ∧ loadConfig (H := sampleImports) (envWith 2000 (inr clientDown)) sampleUrl
      false cachedWorld
    = (Data (storedConfig (H := sampleImports) sampleUrl cachedWorld),
       cachedWorld, []).
Proof.
  split; [reflexivity |]. split; [reflexivity |].
  apply (proj1 (loadConfig_gate (H := sampleImports)
                  (envWith 2000 (inr clientDown)) sampleUrl cachedWorld) 1000).
  - reflexivity.
  - reflexivity.
Defined.

Lemma loadConfig_fetch_error_witness :
  let env := envWith 5000000 (inr clientDown) in
  let r := loadConfig (H := sampleImports) env sampleUrl true cachedWorld in
  result r = Error (Thrown sampleError)
  ∧ storedConfig (H := sampleImports) sampleUrl (final r)
    = defaultConfigAt (H := sampleImports) 5000000.
Proof.
  intros env r.
  destruct (loadConfig_fetch_error (H := sampleImports) env sampleUrl true
              cachedWorld clientDown sampleError) as (Hres & Hstored & _).
  - reflexivity.
  - reflexivity.
  - vm_compute. apply list_elem_of_further, list_elem_of_here.
  - split; [exact Hres | exact Hstored].
Defined.

(** C3 as stated fails: a flag of the cached config that the fetched data
    does not mention is still there after a successful forced fetch. *)
Lemma loadConfig_keeps_unfetched_flag :
  let data : gmap string JsValue := {[ "AllowEnableCalls" := JBool false ]} in
  let env := envWith 5000000 (inr (clientOk data [])) in
  let r := loadConfig (H := sampleImports) env sampleUrl true cachedWorld in
  result r = Data (storedConfig (H := sampleImports) sampleUrl (final r))
  ∧ flags (storedConfig (H := sampleImports) sampleUrl (final r)) !! "DefaultEnabled"
    = Some (JBool true)
  ∧ data !! "DefaultEnabled" = None
  ∧ ¬ survives_only_if_fetched
        (storedConfig (H := sampleImports) sampleUrl cachedWorld)
        (storedConfig (H := sampleImports) sampleUrl (final r)) data.
Proof.
  intros data env r.
  split; [reflexivity |]. split; [reflexivity |]. split; [reflexivity |].
  intros Hclaim.
  destruct (Hclaim "DefaultEnabled" (JBool true) eq_refl eq_refl) as [v Hv].
  discriminate Hv.
Qed.

Lemma loadConfig_fetch_success_witness :
  let data : gmap string JsValue := {[ "AllowEnableCalls" := JBool false ]} in
  let env := envWith 5000000 (inr (clientOk data [])) in
  let r := loadConfig (H := sampleImports) env sampleUrl true cachedWorld in
  storedConfig (H := sampleImports) sampleUrl (final r)
  = {| last_retrieved_at := Some 5000000;
       flags := {[ "AllowEnableCalls" := JBool false;
                   "DefaultEnabled" := JBool true ]} |}.
Proof.
  intros data env r.
  destruct (loadConfig_fetch_success (H := sampleImports) env sampleUrl true
              cachedWorld (clientOk data []) data) as (_ & Hnew & _).
  - reflexivity.
  - reflexivity.
  - vm_compute. apply list_elem_of_further, list_elem_of_here.
  - etransitivity; [exact Hnew | reflexivity].
Defined.

Lemma joinCall_outcomes_witness :
  let env := envWith 5000000 (inr (clientOk ∅ [])) in
  let r := joinCall (H := sampleImports) env sampleUrl "channel1" sampleIntl
             emptyWorld in
  reachesWaitForReady (H := sampleImports) env sampleUrl "channel1" emptyWorld
    sampleConnection
  ∧ result r = Data "channel1"
  ∧ connection (final r) = Some sampleConnection.
Proof.
  intros env r.
  assert (reachesWaitForReady (H := sampleImports) env sampleUrl "channel1"
            emptyWorld sampleConnection) as Hreach.
  { split; [reflexivity |]. split; reflexivity. }
  split; [exact Hreach |].
  destruct (joinCall_outcomes (H := sampleImports) env sampleUrl "channel1"
              sampleIntl emptyWorld) as (_ & _ & _ & Hok & _).
  destruct (Hok sampleConnection Hreach eq_refl) as (Hres & Hconn & _).
  split; [exact Hres | exact Hconn].
Defined.

(** A session: join channel1 and mute; the connection is held. *)
Lemma connection_nulled_on_disconnect_witness :
  let env := envWith 5000000 (inr (clientOk ∅ [])) in
  let session := [(env, ActJoinCall sampleUrl "channel1" sampleIntl);
                  (env, ActMuteMyself)] in
  connection emptyWorld = None
  ∧ connection (final (performAll (H := sampleImports) session emptyWorld))
    = Some sampleConnection
  ∧ connection
      (final (performAll (H := sampleImports) (session ++ [(env, ActLeaveCall)])
                emptyWorld))
    = None.
Proof.
  intros env session. split; [reflexivity |].
  destruct (connection_nulled_on_disconnect (H := sampleImports))
    as (_ & _ & Hheld & _).
  split.
  - etransitivity; [apply Hheld; reflexivity | reflexivity].
  - etransitivity; [apply Hheld; reflexivity | reflexivity].
Defined.

Lemma connection_actions_without_connection_witness :
  connection emptyWorld = None
  ∧ muteMyself emptyWorld = (tt, emptyWorld, [])
  ∧ raiseHand emptyWorld = (tt, emptyWorld, []).
Proof.
  split; [reflexivity |].
  destruct (connection_actions_without_connection emptyWorld eq_refl)
    as (Hmute & _ & Hraise & _).
  split; [exact Hmute | exact Hraise].
Defined.

Lemma channel_toggle_witness :
  let env := envWith 5000000 (inr (clientOk ∅ [])) in
  channelEnabled sampleUrl "channel1"
    (final (enableChannelCalls env sampleUrl "channel1" emptyWorld)) = Some true
  ∧ final (disableChannelCalls (envWith 5000000 (inr clientDown)) sampleUrl
             "channel1" callWorld) = callWorld.
Proof.
  intros env. split.
  - destruct (channel_toggle env sampleUrl "channel1" emptyWorld (clientOk ∅ [])
                eq_refl) as (_ & Hok & _).
    destruct (Hok tt eq_refl) as (_ & Hflag & _). exact Hflag.
  - destruct (channel_toggle (envWith 5000000 (inr clientDown)) sampleUrl
                "channel1" callWorld clientDown eq_refl) as (_ & _ & Hfail & _).
    destruct (Hfail sampleError eq_refl) as (_ & Hsame & _). exact Hsame.
Defined.

Lemma rest_failures_surfaced_witness :
  let env := envWith 5000000 (inr clientDown) in
  (result (loadConfig (H := sampleImports) env sampleUrl true cachedWorld)
   = Error (Thrown sampleError)
   ∧ events (loadConfig (H := sampleImports) env sampleUrl false emptyWorld)
     = [EvGetClient sampleUrl; EvRequest sampleUrl ReqGetCallsConfig;
        EvForceLogoutIfNecessary sampleUrl sampleError;
        EvSetConfig sampleUrl (defaultConfigAt (H := sampleImports) 5000000)])
  ∧ result (loadCalls env sampleUrl "user1" emptyWorld) = Error (Thrown sampleError)
  ∧ events (checkIsCallsPluginEnabled (H := sampleImports) env sampleUrl emptyWorld)
    = [EvGetClient sampleUrl; EvRequest sampleUrl ReqGetPluginsManifests;
       EvForceLogoutIfNecessary sampleUrl sampleError].
Proof.
  intros env.
  destruct (rest_failures_surfaced (H := sampleImports) env sampleUrl cachedWorld
              clientDown sampleError eq_refl) as (Hforced & _).
  destruct (rest_failures_surfaced (H := sampleImports) env sampleUrl emptyWorld
              clientDown sampleError eq_refl) as (Hstale & Hcalls & Hplugin & _).
  split; [split |split].
  - destruct (Hforced eq_refl true) as (Hres & _); [left; reflexivity | exact Hres].
  - destruct (Hstale eq_refl false) as (_ & Hev); [right; vm_compute; discriminate |].
    exact Hev.
  - destruct (Hcalls eq_refl "user1") as (Hres & _). exact Hres.
  - destruct (Hplugin eq_refl) as (_ & Hev). exact Hev.
Defined.

(** C8 as stated fails: the current user is neither a system admin nor the
    creator of the call running in channel1, but the channel is not in the
    database, and [endCallAlert] returns without showing anything. *)
Lemma endCallAlert_silent_without_channel :
  let env := envWithDatabase (databaseWith ∅) in
  events (endCallAlert (H := sampleImports) env sampleUrl sampleIntl "channel1"
            callWorld) = []
  ∧ ¬ permission_alert_whenever (H := sampleImports) env sampleUrl sampleIntl
        "channel1" callWorld.
Proof.
  intros env. split; [reflexivity |].
  intros Hclaim.
  specialize (Hclaim (databaseWith ∅) sampleUser sampleCall
                eq_refl eq_refl eq_refl eq_refl).
  assert (user_id sampleUser ≠ creatorId sampleCall) as Hne by discriminate.
  apply Hclaim in Hne. vm_compute in Hne. by apply elem_of_nil in Hne.
Qed.

Lemma endCallAlert_permission_witness :
  let env := envWithDatabase (databaseWith {[ "channel1" := sampleChannel ]}) in
  events (endCallAlert (H := sampleImports) env sampleUrl sampleIntl "channel1"
            callWorld)
  = [permissionAlert sampleIntl].
Proof.
  intros env.
  destruct (endCallAlert_permission (H := sampleImports) env sampleUrl sampleIntl
              "channel1" callWorld) as (_ & Hdenied & _).
  destruct (Hdenied (databaseWith {[ "channel1" := sampleChannel ]}) sampleUser
              sampleChannel sampleCall eq_refl eq_refl eq_refl eq_refl eq_refl)
    as (Hev & _).
  - discriminate.
  - exact Hev.
Defined.

Lemma loadCalls_participants_witness :
  let env := envWith 5000000 (inr (clientOk ∅ sampleResp)) in
  let r := loadCalls env sampleUrl "user1" emptyWorld in
  ∃ theCall,
    calls (result (getCallsState sampleUrl (final r))) !! "channel1"
    = Some theCall
    ∧ participants theCall !! "user1"
      = Some {| id := "user1"; muted := false; raisedHand := 7 |}
    ∧ participants theCall !! "user2"
      = Some {| id := "user2"; muted := true; raisedHand := 0 |}.
Proof.
  intros env r.
  destruct (loadCalls_participants env sampleUrl "user1"
              emptyWorld (clientOk ∅ sampleResp) sampleResp 0%nat
              {| channel_id := "channel1"; enabled := true;
                 call := Some sampleServerCall |} sampleServerCall
              eq_refl eq_refl eq_refl eq_refl)
    as (cs & en & theCall & _ & Hstored & Hcall & _ & Hdefault & Hstate).
  - intros j ch Hj Hlook. destruct j as [|j]; [lia | discriminate Hlook].
  - exists theCall. split; [| split].
    + subst r. rewrite Hstored. exact Hcall.
    + apply (Hstate 0%nat "user1" {| unmuted := true; raised_hand := 7 |} eq_refl).
      * vm_compute. intros Hin. apply elem_of_cons in Hin.
        destruct Hin as [Hin|Hin]; [discriminate Hin |].
        by apply elem_of_nil in Hin.
      * reflexivity.
    + apply (Hdefault 1%nat "user2" eq_refl).
      * vm_compute. intros Hin. by apply elem_of_nil in Hin.
      * reflexivity.
Defined.

(** * Further properties of the actions *)

Ltac unfold_tasks :=
  unfold loadConfigAndCalls, startLoadConfig, startLoadCalls, finishConfig,
    finishCalls, advanceConfig, advanceCalls, resumeConfig, resumeCalls in *.

Ltac unfold_joins :=
  unfold twoJoinCalls, inTurn, finishJoin, startJoinCall, resumeJoin in *.


Section MoreProperties.
Context `{Imports}.

(** ** Client lookup, the gate and the cache *)

(** X1: when [NetworkManager.getClient] throws, each of the five REST
    actions returns [{error}] with the error thrown, after the lookup alone:
    no request, no [forceLogoutIfNecessary], no change of state. *)
Theorem client_lookup_failure env serverUrl w error :
  env_getClient env serverUrl = inl error →
  loadConfig env serverUrl true w
  = (Error (Thrown error), w, [EvGetClient serverUrl])
  ∧ (∀ userId, loadCalls env serverUrl userId w
               = (Error (Thrown error), w, [EvGetClient serverUrl]))
  ∧ checkIsCallsPluginEnabled env serverUrl w
    = (Error (Thrown error), w, [EvGetClient serverUrl])
  ∧ (∀ channelId, enableChannelCalls env serverUrl channelId w
                  = (Error (Thrown error), w, [EvGetClient serverUrl]))
  ∧ (∀ channelId, disableChannelCalls env serverUrl channelId w
                  = (Error (Thrown error), w, [EvGetClient serverUrl])).
Proof.
  intros Hc. unfold_actions. run. rewrite Hc. run. by destruct w.
Qed.

(** X2: without [force], a cached config that is [RefreshConfigMillis] old
    or older is fetched again exactly as with [force]; a config without a
    timestamp, or with timestamp 0, counts as retrieved at time 0 and is
    served from the cache only while the clock is below
    [RefreshConfigMillis]. *)
Theorem loadConfig_stale_or_unstamped env serverUrl w :
  (RefreshConfigMillis
   ≤ Date_now env - or_zero (last_retrieved_at (storedConfig serverUrl w)) →
   loadConfig env serverUrl false w = loadConfig env serverUrl true w)
  ∧ (or_zero (last_retrieved_at (storedConfig serverUrl w)) = 0 →
     Date_now env < RefreshConfigMillis →
     loadConfig env serverUrl false w = (Data (storedConfig serverUrl w), w, [])).
Proof.
  unfold loadConfig, storedConfig. run. split.
  - intros Hst.
    destruct (Z.ltb_spec
                (Date_now env
                 - or_zero (last_retrieved_at
                              (default DefaultCallsConfig (callsConfigs w !! serverUrl))))
                RefreshConfigMillis); [lia | done].
  - intros -> Hlt. rewrite Z.sub_0_r.
    destruct (Z.ltb_spec (Date_now env) RefreshConfigMillis); [done | lia].
Qed.

(** X3: once the config request was made, whether it succeeded or failed,
    the stored config is stamped with the time of that [loadConfig], and a
    later [loadConfig] without [force], less than [RefreshConfigMillis]
    after it, answers from the store without any call; after a failed
    request what it answers is the default config. *)
Theorem loadConfig_cached_after_fetch env env' serverUrl force w :
  EvRequest serverUrl ReqGetCallsConfig ∈ events (loadConfig env serverUrl force w) →
  Date_now env' - Date_now env < RefreshConfigMillis →
  let w1 := final (loadConfig env serverUrl force w) in
  last_retrieved_at (storedConfig serverUrl w1) = Some (Date_now env)
  ∧ loadConfig env' serverUrl false w1 = (Data (storedConfig serverUrl w1), w1, [])
  ∧ ((∃ e, result (loadConfig env serverUrl force w) = Error e) →
     storedConfig serverUrl w1 = defaultConfigAt (Date_now env)).
Proof.
  intros Hreq Hlt w1.
  assert (last_retrieved_at (storedConfig serverUrl w1) = Some (Date_now env)
          ∧ ((∃ e, result (loadConfig env serverUrl force w) = Error e) →
             storedConfig serverUrl w1 = defaultConfigAt (Date_now env)))
    as [Hts Hdef].
  { subst w1.
    destruct (loadConfig_cases env serverUrl force w) as [Hl|Hl]; rewrite Hl in *.
    { cbn in Hreq. by apply elem_of_nil in Hreq. }
    clear Hl. revert Hreq. unfold fetchConfig, storedConfig. run.
    destruct (env_getClient env serverUrl) as [e|client]; run.
    { intros Hin. exfalso. revert Hin. not_in_trace. }
    destruct (resp_getCallsConfig client) as [e|data]; run;
      rewrite lookup_insert_eq; intros _; split; try done.
    by intros [e ?]. }
  split; [done |]. split; [| done].
  by apply (loadConfig_fresh env' serverUrl w1 (Date_now env)).
Qed.

(** ** What the actions leave alone *)

(** X4: an action changes neither the config nor the calls state stored for
    a server other than the one it names. *)
Theorem actions_keep_other_servers env a w other :
  serverOf a ≠ Some other →
  callsConfigs (final (perform env a w)) !! other = callsConfigs w !! other
  ∧ callsStates (final (perform env a w)) !! other = callsStates w !! other.
Proof.
  destruct a; try destruct h; unfold serverOf, setCallsState; unfold_actions;
    intros Hne; run_cases; rewrite ?lookup_insert_ne by congruence; done.
Qed.


(** *** The maps built by [loadCalls] *)

Lemma loadCallsStep_enabled_other l acc k :
  (∀ ch, ch ∈ l → channel_id ch ≠ k) →
  (foldl loadCallsStep acc l).2 !! k = acc.2 !! k.
Proof.
  revert acc. induction l as [|x l IH]; intros acc Hl; [done |]. cbn.
  rewrite IH by (intros; apply Hl; by apply list_elem_of_further).
  unfold loadCallsStep. cbn. rewrite lookup_insert_ne; [done |].
  apply Hl, list_elem_of_here.
Qed.

Lemma loadCallsStep_enabled_last resp acc i ch :
  resp !! i = Some ch →
  (∀ j ch', (i < j)%nat → resp !! j = Some ch' → channel_id ch' ≠ channel_id ch) →
  (foldl loadCallsStep acc resp).2 !! channel_id ch = Some (enabled ch).
Proof.
  intros Hi Hlater.
  rewrite <- (take_drop_middle resp i ch Hi), foldl_app. cbn.
  rewrite loadCallsStep_enabled_other.
  - unfold loadCallsStep at 1. cbn. by rewrite lookup_insert_eq.
  - intros ch' Hin. apply list_elem_of_lookup in Hin as [j Hj].
    rewrite lookup_drop in Hj. apply (Hlater (S i + j)%nat); [lia | done].
Qed.

Lemma loadCallsStep_enabled_is_Some l acc k :
  is_Some ((foldl loadCallsStep acc l).2 !! k)
  ↔ k ∈ channel_id <$> l ∨ is_Some (acc.2 !! k).
Proof.
  revert acc. induction l as [|x l IH]; intros acc; cbn.
  - rewrite elem_of_nil. tauto.
  - rewrite IH, elem_of_cons. unfold loadCallsStep. cbn.
    destruct (decide (channel_id x = k)) as [->|Hne].
    + rewrite lookup_insert_eq. split; [intros _; by left; left | eauto].
    + rewrite lookup_insert_ne by done.
      split; [tauto | intros [[Heq|?]|?]; [congruence | tauto | tauto]].
Qed.

Lemma loadCallsStep_calls_is_Some l acc k :
  is_Some ((foldl loadCallsStep acc l).1 !! k)
  ↔ (∃ ch, ch ∈ l ∧ channel_id ch = k ∧ is_Some (call ch))
    ∨ is_Some (acc.1 !! k).
Proof.
  revert acc. induction l as [|x l IH]; intros acc; cbn.
  - split; [by right | intros [(ch & Hin & _)|?]; [by apply elem_of_nil in Hin | done]].
  - rewrite IH. unfold loadCallsStep. cbn. split.
    + intros [(ch & Hin & Hk & Hc)|Hacc].
      * left. exists ch. split; [by apply list_elem_of_further | done].
      * destruct (call x) as [c|] eqn:Hx; cbn in *; [| right; exact Hacc].
        destruct (decide (channel_id x = k)) as [Hk|Hk].
        -- left. exists x. split; [apply list_elem_of_here |].
           split; [done | by rewrite Hx].
        -- rewrite lookup_insert_ne in Hacc by done. by right.
    + intros [(ch & Hin & Hk & Hc)|Hacc].
      * apply elem_of_cons in Hin as [->|Hin].
        -- right. destruct Hc as [c Hc]. rewrite Hc, Hk. cbn.
           by rewrite lookup_insert_eq.
        -- left. by exists ch.
      * right. destruct (call x); cbn; [| done].
        destruct (decide (channel_id x = k)) as [->|Hk].
        -- by rewrite lookup_insert_eq.
        -- by rewrite lookup_insert_ne.
Qed.

Lemma loadCallsStep_calls_key l acc :
  (∀ k c, acc.1 !! k = Some c → channelId c = k) →
  ∀ k c, (foldl loadCallsStep acc l).1 !! k = Some c → channelId c = k.
Proof.
  revert acc. induction l as [|x l IH]; intros acc Hacc; [done |]. cbn.
  apply IH. intros k c. unfold loadCallsStep. cbn.
  destruct (call x) as [cx|]; [| apply Hacc].
  destruct (decide (channel_id x = k)) as [<-|Hk].
  - rewrite lookup_insert_eq. intros Heq. by simplify_eq.
  - rewrite lookup_insert_ne by done. apply Hacc.
Qed.

(** X6: after a [loadCalls] whose request succeeds, the calls state stored
    for the server is exactly what the action returns, under the user id
    given.  A channel has an enabled flag iff it is in the response, the flag
    being the one of its last entry; a channel has a call iff one of its
    entries came with a call; and every stored call carries the id of the
    channel it is stored under. *)
Theorem loadCalls_maps env serverUrl userId w client resp :
  env_getClient env serverUrl = inr client →
  resp_getCalls client = inr resp →
  let r := loadCalls env serverUrl userId w in
  ∃ cs en,
    result r = Data (cs, en)
    ∧ result (getCallsState serverUrl (final r))
      = {| myUserId := userId; calls := cs; enabledChannels := en |}
    ∧ (∀ k, is_Some (en !! k) ↔ k ∈ channel_id <$> resp)
    ∧ (∀ i ch, resp !! i = Some ch →
         (∀ j ch', (i < j)%nat → resp !! j = Some ch' →
                   channel_id ch' ≠ channel_id ch) →
         en !! channel_id ch = Some (enabled ch))
    ∧ (∀ k, is_Some (cs !! k)
            ↔ ∃ ch, ch ∈ resp ∧ channel_id ch = k ∧ is_Some (call ch))
    ∧ (∀ k c, cs !! k = Some c → channelId c = k).
Proof.
  intros Hcl Hresp r. subst r.
  exists (foldl loadCallsStep (∅, ∅) resp).1, (foldl loadCallsStep (∅, ∅) resp).2.
  unfold loadCalls. run. rewrite Hcl. run. rewrite Hresp. run.
  split; [| split; [| split; [| split; [| split]]]].
  - destruct (bool_decide _); run; by destruct (foldl _ _ _).
  - destruct (bool_decide _); run; unfold setCallsState; cbn;
      by rewrite lookup_insert_eq.
  - intros k. rewrite loadCallsStep_enabled_is_Some. cbn.
    rewrite lookup_empty. split; [intros [?|[? ?]]; done | by left].
  - intros i ch Hi Hlater. by apply (loadCallsStep_enabled_last resp _ i).
  - intros k. rewrite loadCallsStep_calls_is_Some. cbn.
    rewrite lookup_empty. split; [intros [?|[? ?]]; done | by left].
  - apply loadCallsStep_calls_key. intros k c. cbn. by rewrite lookup_empty.
Qed.

(** *** The user ids handed to [fetchUsersByIds] *)

Lemma set_add_NoDup ids i : NoDup ids → NoDup (set_add ids i).
Proof.
  intros Hnd. unfold set_add. destruct (decide (i ∈ ids)); [done |].
  apply NoDup_app. split; [done |]. split; [| apply NoDup_singleton].
  intros x Hx ->%list_elem_of_singleton. done.
Qed.

Lemma set_add_elem_of ids i u : u ∈ set_add ids i ↔ u ∈ ids ∨ u = i.
Proof.
  unfold set_add. destruct (decide (i ∈ ids)).
  - split; [by left | intros [?| ->]; done].
  - rewrite elem_of_app, list_elem_of_singleton. done.
Qed.

Lemma foldl_set_add_NoDup us ids : NoDup ids → NoDup (foldl set_add ids us).
Proof.
  revert ids. induction us as [|u us IH]; intros ids Hnd; [done |].
  cbn. by apply IH, set_add_NoDup.
Qed.

Lemma foldl_set_add_elem_of us ids u :
  u ∈ foldl set_add ids us ↔ u ∈ ids ∨ u ∈ us.
Proof.
  revert ids. induction us as [|x us IH]; intros ids; cbn.
  - rewrite elem_of_nil. tauto.
  - rewrite IH, set_add_elem_of, elem_of_cons. tauto.
Qed.

Lemma idsStep_NoDup resp ids : NoDup ids → NoDup (foldl idsStep ids resp).
Proof.
  revert ids. induction resp as [|ch resp IH]; intros ids Hnd; [done |].
  cbn. apply IH. unfold idsStep. destruct (call ch); [| done].
  by apply foldl_set_add_NoDup.
Qed.

Lemma idsStep_elem_of resp ids u :
  u ∈ foldl idsStep ids resp
  ↔ u ∈ ids ∨ ∃ ch c, ch ∈ resp ∧ call ch = Some c ∧ u ∈ users c.
Proof.
  revert ids. induction resp as [|x resp IH]; intros ids; cbn.
  - split; [by left | intros [?|(ch & c & Hin & _)]; [done |]].
    by apply elem_of_nil in Hin.
  - rewrite IH. unfold idsStep. split.
    + intros [Hin|(ch & c & Hin & Hc & Hu)].
      * destruct (call x) as [cx|] eqn:Hx; [| by left].
        apply foldl_set_add_elem_of in Hin as [?|?]; [by left |].
        right. exists x, cx. split; [apply list_elem_of_here | done].
      * right. exists ch, c. split; [by apply list_elem_of_further | done].
    + intros [Hin|(ch & c & Hin & Hc & Hu)].
      * left. destruct (call x); [| done].
        apply foldl_set_add_elem_of. by left.
      * apply elem_of_cons in Hin as [->|Hin].
        -- left. rewrite Hc. apply foldl_set_add_elem_of. by right.
        -- right. by exists ch, c.
Qed.

(** X7: the ids [loadCalls] hands to [fetchUsersByIds] are the user ids of
    all the calls of the response, each once; the call is made before
    [setCalls], and only when there is at least one id. *)
Theorem loadCalls_fetches_users env serverUrl userId w client resp :
  env_getClient env serverUrl = inr client →
  resp_getCalls client = inr resp →
  let ids := collectIds resp in
  NoDup ids
  ∧ (∀ u, u ∈ ids ↔ ∃ ch c, ch ∈ resp ∧ call ch = Some c ∧ u ∈ users c)
  ∧ ∃ cs en,
      events (loadCalls env serverUrl userId w)
      = [EvGetClient serverUrl; EvRequest serverUrl ReqGetCalls]
        ++ (if decide (ids = []) then [] else [EvFetchUsersByIds serverUrl ids])
        ++ [EvSetCalls serverUrl userId cs en].
Proof.
  intros Hcl Hresp ids. subst ids.
  change (collectIds resp) with (foldl idsStep [] resp).
  split; [apply idsStep_NoDup, NoDup_nil_2 |]. split.
  - intros u. rewrite idsStep_elem_of, elem_of_nil. tauto.
  - exists (foldl loadCallsStep (∅, ∅) resp).1, (foldl loadCallsStep (∅, ∅) resp).2.
    unfold loadCalls. run. rewrite Hcl. run. rewrite Hresp. run.
    change (collectIds resp) with (foldl idsStep [] resp).
    destruct (foldl idsStep [] resp) as [|i ids]; by run.
Qed.

(** *** The participants of a call *)

Lemma buildParticipants_id c u p :
  buildParticipants c !! u = Some p → id p = u.
Proof.
  unfold buildParticipants, reduce.
  assert (∀ l i acc, (∀ u p, acc !! u = Some p → id p = u) →
            ∀ u p, reduce_from (addParticipant c) l i acc !! u = Some p → id p = u)
    as Hgen.
  { induction l as [|x l IH]; intros i acc Hacc; [done |]. cbn.
    apply IH. intros u' p'. unfold addParticipant.
    destruct (decide (x = u')) as [->|Hne].
    - rewrite lookup_insert_eq. by intros [= <-].
    - rewrite lookup_insert_ne by done. apply Hacc. }
  apply Hgen. intros u' p'. by rewrite lookup_empty.
Qed.

Lemma buildParticipants_dom c :
  dom (buildParticipants c) = list_to_set (users c).
Proof.
  apply set_eq. intros u.
  rewrite elem_of_dom, buildParticipants_is_Some, elem_of_list_to_set. done.
Qed.

(** X8: the participants of a call are counted by distinct user id: the map
    has as many entries as [call.users] has different ids, which is the
    length of [call.users] when no id repeats; and every participant carries
    the id it is stored under. *)
Theorem participants_count c :
  size (buildParticipants c) = size (list_to_set (users c) : gset string)
  ∧ (NoDup (users c) → size (buildParticipants c) = length (users c))
  ∧ (size (buildParticipants c) ≤ length (users c))%nat
  ∧ (∀ u p, buildParticipants c !! u = Some p → id p = u).
Proof.
  assert (size (buildParticipants c) = size (list_to_set (users c) : gset string))
    as Hsize.
  { by rewrite <- buildParticipants_dom, size_dom. }
  split; [done |]. split; [| split].
  - intros Hnd. rewrite Hsize. by apply size_list_to_set.
  - rewrite Hsize. generalize (users c). intros l.
    induction l as [|x l IH]; [done |]. cbn [list_to_set foldr length].
    rewrite size_union_alt, size_singleton.
    assert (size (list_to_set l ∖ {[x]} : gset string)
            ≤ size (list_to_set l : gset string))%nat as Hle.
    { apply subseteq_size, subseteq_difference_l. done. }
    lia.
  - apply buildParticipants_id.
Qed.

(** *** The plugin check *)

Lemma findIndex_none {A} (p : A → bool) (l : list A) :
  findIndex p l = -1 ↔ ∀ x, x ∈ l → p x = false.
Proof.
  unfold findIndex. destruct (list_find _ l) as [[i x]|] eqn:Hf.
  - apply list_find_Some in Hf as (Hi & Hp & _). split; [lia |].
    intros Hall. apply list_elem_of_lookup_2 in Hi. rewrite (Hall x Hi) in Hp.
    done.
  - apply list_find_None in Hf. split; [| done]. intros _ x Hx.
    rewrite Forall_forall in Hf. specialize (Hf x Hx).
    by destruct (p x).
Qed.

(** X9: [checkIsCallsPluginEnabled], when its request succeeds, answers
    [{data: true}] exactly when one of the manifests has the id of the calls
    plugin, tells the store the same value and changes nothing itself. *)
Theorem plugin_check env serverUrl w client data :
  env_getClient env serverUrl = inr client →
  resp_getPluginsManifests client = inr data →
  let r := checkIsCallsPluginEnabled env serverUrl w in
  final r = w
  ∧ ∃ b, result r = Data b
         ∧ events r = [EvGetClient serverUrl;
                       EvRequest serverUrl ReqGetPluginsManifests;
                       EvSetPluginEnabled serverUrl b]
         ∧ (b = true ↔ ∃ m, m ∈ data ∧ manifest_id m = PluginId).
Proof.
  intros Hcl Hd r. subst r. unfold checkIsCallsPluginEnabled. run.
  rewrite Hcl. run. rewrite Hd. run. split; [by destruct w |].
  eexists. split; [done |]. split; [done |].
  destruct (Z.eqb_spec (findIndex (λ m, bool_decide (manifest_id m = PluginId)) data) (-1))
    as [Heq|Hne]; cbn.
  - split; [done |]. intros (m & Hin & Hm).
    apply findIndex_none with (x := m) in Heq; [| done].
    by rewrite bool_decide_eq_true_2 in Heq.
  - split; [| done]. intros _.
    destruct (decide (Exists (λ m, manifest_id m = PluginId) data)) as [Hex|Hnex].
    + apply Exists_exists in Hex. done.
    + exfalso. apply Hne, findIndex_none. intros m Hin.
      apply bool_decide_eq_false_2. intros Hm. apply Hnex, Exists_exists. eauto.
Qed.

(** ** More on joining and leaving *)

(** X10: the calls of a [joinCall] that gets to [waitForReady()], in order:
    the plugin check, the permission question, the [disconnect()] of the
    connection held so far if there is one, the speakerphone switched off,
    [newConnection], [waitForReady()], and then [myselfJoinedCall] or the
    [disconnect()] of the new connection.  The old connection is closed
    before the new one is asked for. *)
Theorem joinCall_trace env serverUrl channelId intl w conn :
  reachesWaitForReady env serverUrl channelId w conn →
  events (joinCall env serverUrl channelId intl w)
  = events (checkIsCallsPluginEnabled env serverUrl w)
    ++ [EvHasMicrophonePermission]
    ++ disconnectOf (connection w)
    ++ [EvInCallManagerSetSpeakerphoneOn false; EvSetSpeakerPhone false;
        EvNewConnection serverUrl channelId (inr conn); EvWaitForReady conn]
    ++ (if conn_ready conn
        then [EvMyselfJoinedCall serverUrl channelId]
        else [EvDisconnect conn]).
Proof.
  intros (Hc & Hp & Hn). unfold_join. unfold disconnectOf. run_cases; done.
Qed.

(** X11: when [newConnection] is rejected, [joinCall] hands the error to
    [forceLogoutIfNecessary] and returns it; the connection held before, if
    any, has been disconnected by then, and the reference is null: the user
    is left without a call. *)
Theorem joinCall_connection_failure env serverUrl channelId intl w error :
  result (checkIsCallsPluginEnabled env serverUrl w) = Data true →
  env_hasMicrophonePermission env = true →
  env_newConnection env serverUrl channelId = inl error →
  let r := joinCall env serverUrl channelId intl w in
  result r = Error (Thrown error)
  ∧ connection (final r) = None
  ∧ events r
    = events (checkIsCallsPluginEnabled env serverUrl w)
      ++ [EvHasMicrophonePermission]
      ++ disconnectOf (connection w)
      ++ [EvInCallManagerSetSpeakerphoneOn false; EvSetSpeakerPhone false;
          EvNewConnection serverUrl channelId (inl error);
          EvForceLogoutIfNecessary serverUrl error].
Proof.
  intros Hc Hp Hn r. subst r. unfold_join. unfold disconnectOf.
  run_cases; done.
Qed.

(** X12: a [joinCall] that is refused, because the plugin check did not
    report true or because the microphone may not be used, leaves the
    connection reference as it was, disconnects nothing and opens nothing.
    The calls it makes are those of the plugin check, [setPluginEnabled]
    among them when the manifests were fetched, followed by the permission
    question when the check reported true.  When the plugin check itself
    fails, the error it returns is dropped and [joinCall] reports 'calls
    plugin not enabled'. *)
Theorem joinCall_refused env serverUrl channelId intl w :
  result (checkIsCallsPluginEnabled env serverUrl w) ≠ Data true
  ∨ env_hasMicrophonePermission env = false →
  let r := joinCall env serverUrl channelId intl w in
  connection (final r) = connection w
  ∧ (∀ c, EvDisconnect c ∉ events r)
  ∧ (∀ u ch res, EvNewConnection u ch res ∉ events r)
  ∧ (result (checkIsCallsPluginEnabled env serverUrl w) ≠ Data true →
     result r = Error (Literal "calls plugin not enabled")
     ∧ events r = events (checkIsCallsPluginEnabled env serverUrl w))
  ∧ (result (checkIsCallsPluginEnabled env serverUrl w) = Data true →
     result r = Error (Literal "no permissions to microphone, unable to start call")
     ∧ events r
       = events (checkIsCallsPluginEnabled env serverUrl w)
         ++ [EvHasMicrophonePermission])
  ∧ (∀ enabled,
       result (checkIsCallsPluginEnabled env serverUrl w) = Data enabled →
       EvSetPluginEnabled serverUrl enabled ∈ events r).
Proof.
  intros Href r. subst r. unfold_join.
  split; [| split; [| split; [| split; [| split]]]].
  - destruct Href as [Hc|Hp]; run_cases; done.
  - intros c. destruct Href as [Hc|Hp]; run_cases; try done; not_in_trace.
  - intros u ch res. destruct Href as [Hc|Hp]; run_cases; try done; not_in_trace.
  - intros Hc. clear Href. run_cases; done.
  - intros Hc. destruct Href as [Hc'|Hp]; [done |]. run_cases; done.
  - intros enabled. destruct Href as [Hc|Hp]; run_cases; intros Hd; simplify_eq;
      in_trace.
Qed.

(** X13: [leaveCall] disconnects the connection held, if there is one, nulls
    the reference, switches the speakerphone off and calls [myselfLeftCall],
    in this order, and touches nothing else; a second [leaveCall] right after
    disconnects nothing. *)
Theorem leaveCall_trace w :
  let r := leaveCall w in
  connection (final r) = None
  ∧ callsConfigs (final r) = callsConfigs w
  ∧ callsStates (final r) = callsStates w
  ∧ events r
    = disconnectOf (connection w)
      ++ [EvInCallManagerSetSpeakerphoneOn false; EvSetSpeakerPhone false;
          EvMyselfLeftCall]
  ∧ leaveCall (final r)
    = (tt, final r,
       [EvInCallManagerSetSpeakerphoneOn false; EvSetSpeakerPhone false;
        EvMyselfLeftCall]).
Proof.
  intros r. subst r. unfold_actions. unfold disconnectOf. run_cases; done.
Qed.

(** X14: after a [joinCall] that returned [{data}], each of [muteMyself],
    [unmuteMyself], [raiseHand] and [unraiseHand] makes its one call on the
    connection that was joined and changes nothing; after [leaveCall] each
    of them does nothing. *)
Theorem connection_actions_follow_the_call env serverUrl channelId intl w :
  let w1 := final (joinCall env serverUrl channelId intl w) in
  let w2 := final (leaveCall w) in
  (∀ d, result (joinCall env serverUrl channelId intl w) = Data d →
     ∃ conn, env_newConnection env serverUrl channelId = inr conn
             ∧ muteMyself w1 = (tt, w1, [EvMute conn])
             ∧ unmuteMyself w1 = (tt, w1, [EvUnmute conn])
             ∧ raiseHand w1 = (tt, w1, [EvRaiseHand conn])
             ∧ unraiseHand w1 = (tt, w1, [EvUnraiseHand conn]))
  ∧ muteMyself w2 = (tt, w2, [])
  ∧ unmuteMyself w2 = (tt, w2, [])
  ∧ raiseHand w2 = (tt, w2, [])
  ∧ unraiseHand w2 = (tt, w2, []).
Proof.
  intros w1 w2. subst w1 w2. split.
  - intros d. unfold_actions. run_cases; intros Hd; try done;
      eexists; (split; [done |]); done.
  - unfold_actions. run_cases; done.
Qed.

(** ** Which connections are open *)

Lemma perform_open env a w :
  foldl openAfter (option_list (connection w)) (events (perform env a w))
  = option_list (connection (final (perform env a w))).
Proof.
  destruct a; unfold_actions; run_cases; try done;
    repeat match goal with Hq : connection _ = _ |- _ => rewrite Hq end; cbn;
    rewrite ?decide_True by done; done.
Qed.

Lemma perform_open_prefix env a w tr :
  tr `prefix_of` events (perform env a w) →
  (length (foldl openAfter (option_list (connection w)) tr) ≤ 1)%nat.
Proof.
  destruct a; unfold_actions; run_cases;
    intros Hpre;
    repeat match goal with Hq : connection _ = _ |- _ => rewrite Hq end;
    repeat (destruct tr as [|? tr];
            [cbn; rewrite ?decide_True by done; cbn;
             try (destruct (connection _)); cbn; lia |];
            first [ by apply prefix_nil_not in Hpre
                  | pose proof (prefix_cons_inv_1 _ _ _ _ Hpre); subst;
                    apply prefix_cons_inv_2 in Hpre ]).
Qed.

Lemma prefix_app_cases {A} (tr t1 t2 : list A) :
  tr `prefix_of` t1 ++ t2 →
  tr `prefix_of` t1 ∨ ∃ k, tr = t1 ++ k ∧ k `prefix_of` t2.
Proof.
  revert tr. induction t1 as [|x t1 IH]; intros tr Hpre.
  - right. by exists tr.
  - destruct tr as [|y tr]; [left; apply prefix_nil |].
    cbn in Hpre. pose proof (prefix_cons_inv_1 _ _ _ _ Hpre) as ->.
    apply prefix_cons_inv_2 in Hpre.
    destruct (IH tr Hpre) as [Hl|(k & -> & Hk)].
    + left. by apply prefix_cons.
    + right. by exists k.
Qed.

Lemma performAll_open l w :
  foldl openAfter (option_list (connection w)) (events (performAll l w))
  = option_list (connection (final (performAll l w)))
  ∧ ∀ tr, tr `prefix_of` events (performAll l w) →
          (length (foldl openAfter (option_list (connection w)) tr) ≤ 1)%nat.
Proof.
  revert w. induction l as [|[env a] l IH]; intros w.
  { split; [done |]. intros tr ->%prefix_nil_inv. cbn.
    destruct (connection w); cbn; lia. }
  pose proof (perform_open env a w) as Ha.
  pose proof (perform_open_prefix env a w) as Hp.
  cbn [performAll]. unfold mbind, M_bind, final, events in *.
  destruct (perform env a w) as [[[] w1] t1]. cbn in Ha, Hp.
  destruct (IH w1) as [IH1 IH2].
  destruct (performAll l w1) as [[[] w2] t2]. cbn in *.
  split.
  - by rewrite foldl_app, Ha.
  - intros tr Hpre. apply prefix_app_cases in Hpre as [Hpre|(k & -> & Hk)].
    + by apply Hp.
    + rewrite foldl_app, Ha. by apply IH2.
Qed.

(** Started and run to its end with nothing in between, the split
    [joinCall] is [joinCall]. *)
Lemma start_finish_joinCall env serverUrl channelId intl w :
  (t ← startJoinCall env serverUrl channelId intl; finishJoin env t) w
  = (r ← joinCall env serverUrl channelId intl; mret (JoinDone (Returned r))) w.
Proof.
  unfold_joins. unfold_join. run_cases; done.
Qed.

(** X15: as long as every action has returned before the next is called,
    a session that starts without a connection never has two connections
    open, and the one open after the last action is the one the
    module-level reference holds.  When two [joinCall]s overlap, the second
    called while the first awaits the permission answer and the two taking
    their steps in turn, both return [{data}], the reference holds the
    second connection, and the first has been overwritten without
    [disconnect()]: two connections are open, and a [leaveCall] closes the
    second only. *)
Theorem connections_pile_up_only_on_overlap :
  (∀ l w0, connection w0 = None →
     openConnections (events (performAll l w0))
     = option_list (connection (final (performAll l w0)))
     ∧ ∀ tr, tr `prefix_of` events (performAll l w0) →
             (length (openConnections tr) ≤ 1)%nat)
  ∧ (∀ envA serverUrlA channelIdA intlA envB serverUrlB channelIdB intlB w
       connA connB,
       connection w = None →
       reachesWaitForReady envA serverUrlA channelIdA w connA →
       reachesWaitForReady envB serverUrlB channelIdB w connB →
       conn_ready connA = true →
       conn_ready connB = true →
       let r := twoJoinCalls inTurn envA serverUrlA channelIdA intlA
                  envB serverUrlB channelIdB intlB w in
       result r = (JoinDone (Returned (Data channelIdA)),
                   JoinDone (Returned (Data channelIdB)))
       ∧ connection (final r) = Some connB
       ∧ (∀ c, EvDisconnect c ∉ events r)
       ∧ openConnections (events r) = [connB; connA]
       ∧ openConnections (events r ++ events (leaveCall (final r))) = [connA]).
Proof.
  split.
  - intros l w0 H0. destruct (performAll_open l w0) as [Hend Hpre].
    rewrite H0 in Hend, Hpre. done.
  - intros envA serverUrlA channelIdA intlA envB serverUrlB channelIdB intlB w
      connA connB Hnone (HcA & HpA & HnA) (HcB & HpB & HnB) HrA HrB r. subst r.
    unfold_joins. unfold checkIsCallsPluginEnabled, dataOrFalse, dropConnection,
      openConnections in *.
    run_with ltac:(unfold dropConnection in *; cbn in *; rewrite ?Hnone in *;
                   try break_match; simplify_eq); try done.
    all: split; [done |]; split; [done |]; split; [intros anyc; not_in_trace |].
    all: split; [done |].
    all: unfold leaveCall, dropConnection, setSpeakerphoneOn; run.
    all: rewrite decide_True by done; done.
Qed.

(** ** More on ending a call *)

(** X16: when the database, the current user, the channel and a call of the
    channel exist and the user is a system admin or the creator of the call,
    [endCallAlert] shows one dialog and nothing else: its first button,
    Cancel, runs nothing, its second runs the [endCall] request for this
    server and this channel; outside a direct-message channel the message is
    formatted with the number of participants of the call and the display
    name of the channel. *)
Theorem endCallAlert_offers env serverUrl intl channelId w database currentUser channel c :
  env_serverDatabases env !! serverUrl = Some database →
  db_currentUser database = Some currentUser →
  db_channels database !! channelId = Some channel →
  calls (result (getCallsState serverUrl w)) !! channelId = Some c →
  isSystemAdmin (roles currentUser) = true ∨ user_id currentUser = creatorId c →
  let title := formatMessage intl "mobile.calls_end_call_title" "End call" [] in
  let msg := endCallMsg intl database currentUser channel (size (participants c)) in
  endCallAlert env serverUrl intl channelId w
  = (tt, w,
     [EvAlert title msg
        [ {| button_text := formatMessage intl "mobile.post.cancel" "Cancel" [];
             button_onPress := None; button_style := None |};
          {| button_text := title;
             button_onPress := Some (PressEndCall serverUrl channelId);
             button_style := Some "cancel" |} ]])
  ∧ (channel_type channel ≠ DM_CHANNEL →
     msg = formatMessage intl "mobile.calls_end_msg_channel"
             "Are you sure you want to end a call with {numParticipants} participants in {displayName}?"
             [("numParticipants", JNumber (Z.of_nat (size (participants c))));
              ("displayName", JString (displayName channel))]).
Proof.
  intros Hdb Hu Hch Hcall Hallowed title msg. subst title msg. split.
  - unfold endCallAlert, endCallButtons. rewrite Hdb, Hu, Hch. run.
    rewrite Hcall.
    destruct Hallowed as [Hadm|Hcre].
    + rewrite Hadm. by destruct w.
    + rewrite (bool_decide_eq_true_2 _ Hcre), andb_false_r. by destruct w.
  - intros Hdm. unfold endCallMsg. by rewrite bool_decide_eq_false_2.
Qed.

(** X17: pressing the end-call button changes no state.  When the request
    succeeds nothing is shown; when it fails, [forceLogoutIfNecessary] gets
    the error and an alert shows its message; when the client lookup throws,
    the alert is shown without any request and without
    [forceLogoutIfNecessary].  An error with an empty message is shown as
    'unable to complete command, see server logs'. *)
Theorem press_endCall env serverUrl channelId w :
  let r := press env (PressEndCall serverUrl channelId) w in
  final r = w
  ∧ (∀ e, env_getClient env serverUrl = inl e →
       events r = [EvGetClient serverUrl;
                   EvAlert "Error" ("Error: " +:+ messageOr e) []])
  ∧ (∀ client e, env_getClient env serverUrl = inr client →
       resp_endCall client channelId = inl e →
       events r = [EvGetClient serverUrl;
                   EvRequest serverUrl (ReqEndCall channelId);
                   EvForceLogoutIfNecessary serverUrl e;
                   EvAlert "Error" ("Error: " +:+ messageOr e) []])
  ∧ (∀ client u, env_getClient env serverUrl = inr client →
       resp_endCall client channelId = inr u →
       events r = [EvGetClient serverUrl;
                   EvRequest serverUrl (ReqEndCall channelId)])
  ∧ (∀ e, message e = "" →
       messageOr e = "unable to complete command, see server logs")
  ∧ (∀ e, message e ≠ "" → messageOr e = message e).
Proof.
  intros r. subst r. unfold press, endCall, messageOr.
  split; [| split; [| split; [| split; [| split]]]].
  - run_cases; try done; by destruct w.
  - intros e He. run. rewrite He. by run.
  - intros client e Hc He. run. rewrite Hc. run. rewrite He. by run.
  - intros client u Hc Hu. run. rewrite Hc. run. rewrite Hu. by run.
  - intros e He. by rewrite bool_decide_eq_true_2.
  - intros e He. by rewrite bool_decide_eq_false_2.
Qed.

(** X18: the creator of a call that [loadCalls] has just stored is offered to
    end it: with the creator as the current user and the channel in the
    database, [endCallAlert] on the state left by [loadCalls] shows the
    confirmation dialog, whose message counts the distinct user ids of the
    call. *)
Theorem creator_may_end_loaded_call env env' serverUrl userId intl w
    client resp i ch c database currentUser channel :
  env_getClient env serverUrl = inr client →
  resp_getCalls client = inr resp →
  resp !! i = Some ch →
  call ch = Some c →
  (∀ j ch', (i < j)%nat → resp !! j = Some ch' →
            channel_id ch' = channel_id ch → call ch' = None) →
  env_serverDatabases env' !! serverUrl = Some database →
  db_currentUser database = Some currentUser →
  db_channels database !! channel_id ch = Some channel →
  user_id currentUser = creator_id c →
  let w1 := final (loadCalls env serverUrl userId w) in
  events (endCallAlert env' serverUrl intl (channel_id ch) w1)
  = [EvAlert (formatMessage intl "mobile.calls_end_call_title" "End call" [])
       (endCallMsg intl database currentUser channel
          (size (list_to_set (users c) : gset string)))
       (endCallButtons intl serverUrl (channel_id ch))].
Proof.
  intros Hcl Hresp Hi Hc Hlater Hdb Hu Hch Hcre w1. subst w1.
  unfold endCallAlert. rewrite Hdb, Hu, Hch.
  unfold loadCalls. run. rewrite Hcl. run. rewrite Hresp. run.
  destruct (bool_decide _); run; unfold setCallsState; cbn;
    rewrite lookup_insert_eq; cbn;
    rewrite (loadCallsStep_last resp _ i ch c Hi Hc Hlater); cbn;
    rewrite (bool_decide_eq_true_2 _ Hcre), andb_false_r;
    by rewrite <- buildParticipants_dom, size_dom.
Qed.

(** ** More on the channel toggle *)

(** X19: a successful [enableChannelCalls] or [disableChannelCalls] keeps the
    calls and the user id stored for the server and the stored configs; the
    later of two toggles of a channel decides, whatever the earlier one did,
    and a toggle repeated changes nothing more. *)
Theorem channel_toggle_composes env env' serverUrl channelId w client client' :
  env_getClient env serverUrl = inr client →
  env_getClient env' serverUrl = inr client' →
  resp_enableChannelCalls client channelId = inr tt →
  resp_disableChannelCalls client' channelId = inr tt →
  let w1 := final (enableChannelCalls env serverUrl channelId w) in
  let w2 := final (disableChannelCalls env' serverUrl channelId w1) in
  calls (result (getCallsState serverUrl w1)) = calls (result (getCallsState serverUrl w))
  ∧ myUserId (result (getCallsState serverUrl w1))
    = myUserId (result (getCallsState serverUrl w))
  ∧ callsConfigs w1 = callsConfigs w
  ∧ connection w1 = connection w
  ∧ channelEnabled serverUrl channelId w2 = Some false
  ∧ w2 = final (disableChannelCalls env' serverUrl channelId w)
  ∧ final (enableChannelCalls env serverUrl channelId w1) = w1.
Proof.
  intros Hc Hc' He Hd w1 w2. subst w1 w2.
  unfold enableChannelCalls, disableChannelCalls, channelEnabled, setCallsState.
  run. repeat (first [rewrite Hc | rewrite He | rewrite Hc' | rewrite Hd]; run).
  rewrite ?lookup_insert_eq. cbn. rewrite ?insert_insert_eq, ?lookup_insert_eq.
  cbn. repeat split; try done;
    unfold setCallsState; cbn; by rewrite insert_insert_eq.
Qed.

(** ** The unawaited actions of loadConfigAndCalls *)

(** Started and then finished without anything in between, the split
    actions are the actions. *)
Lemma start_finish_loadConfig env serverUrl w :
  (t ← startLoadConfig env serverUrl; finishConfig t) w
  = ignore (loadConfig env serverUrl true) w.
Proof.
  unfold_tasks. unfold ignore, loadConfig, fetchConfig.
  run_cases; done.
Qed.

Lemma start_finish_loadCalls env serverUrl userId w :
  (t ← startLoadCalls env serverUrl userId; finishCalls t) w
  = ignore (loadCalls env serverUrl userId) w.
Proof.
  unfold_tasks. unfold ignore, loadCalls.
  run. destruct (env_getClient env serverUrl) as [e|client]; run; [done |].
  destruct (resp_getCalls client) as [e|resp]; run; [done |].
  destruct (bool_decide _); run; by destruct (foldl loadCallsStep _ _).
Qed.

Lemma final_bind {A B} (m : M A) (f : A → M B) w :
  final ((m ≫= f) w) = final (f (result (m w)) (final (m w))).
Proof.
  unfold mbind, M_bind, final, result.
  destruct (m w) as [[a w1] t1]. cbn. by destruct (f a w1) as [[b w2] t2].
Qed.

Lemma events_bind {A B} (m : M A) (f : A → M B) w :
  events ((m ≫= f) w)
  = events (m w) ++ events (f (result (m w)) (final (m w))).
Proof.
  unfold mbind, M_bind, final, result, events.
  destruct (m w) as [[a w1] t1]. cbn. by destruct (f a w1) as [[b w2] t2].
Qed.

Lemma result_bind {A B} (m : M A) (f : A → M B) w :
  result ((m ≫= f) w) = result (f (result (m w)) (final (m w))).
Proof.
  unfold mbind, M_bind, final, result.
  destruct (m w) as [[a w1] t1]. cbn. by destruct (f a w1) as [[b w2] t2].
Qed.

(** A step of [loadConfig] and the rest of it make up the whole. *)
Lemma finishConfig_step t w :
  final (finishConfig (result (advanceConfig t w)) (final (advanceConfig t w)))
  = final (finishConfig t w)
  ∧ events (finishConfig t w)
    = events (advanceConfig t w)
      ++ events (finishConfig (result (advanceConfig t w))
                   (final (advanceConfig t w))).
Proof.
  destruct t as [[u now config [e|data]|u now e]|]; unfold_tasks; run; done.
Qed.

(** A step of [loadCalls] before the rest of [loadConfig] or after it: the
    same state, the same calls. *)
Lemma advanceCalls_commutes t cs w :
  let cs' := result (advanceCalls cs w) in
  let w1 := final (advanceCalls cs w) in
  final (finishCalls cs' (final (finishConfig t w1)))
  = final (finishCalls cs (final (finishConfig t w)))
  ∧ events (finishConfig t w1) = events (finishConfig t w)
  ∧ events (finishCalls cs (final (finishConfig t w)))
    = events (advanceCalls cs w)
      ++ events (finishCalls cs' (final (finishConfig t w1))).
Proof.
  destruct t as [[u now config [e|data]|u now e]|];
    destruct cs as [[u' userId [e'|resp]|e']|];
    unfold_tasks; unfold setCallsState; run; try done;
    destruct (bool_decide _); run; done.
Qed.

Lemma interleave_any_order schedule t cs w :
  final (interleave schedule t cs w)
  = final (finishCalls cs (final (finishConfig t w)))
  ∧ events (interleave schedule t cs w)
    ≡ₚ events (finishConfig t w)
       ++ events (finishCalls cs (final (finishConfig t w))).
Proof.
  revert t cs w. induction schedule as [|[] schedule IH]; intros t cs w.
  - cbn [interleave]. by rewrite final_bind, events_bind.
  - cbn [interleave]. rewrite final_bind, events_bind.
    destruct (IH (result (advanceConfig t w)) cs (final (advanceConfig t w)))
      as [IHf IHe].
    destruct (finishConfig_step t w) as [Hf He].
    rewrite IHf, IHe, Hf, He. by rewrite (assoc_L (++)).
  - cbn [interleave]. rewrite final_bind, events_bind.
    destruct (IH t (result (advanceCalls cs w)) (final (advanceCalls cs w)))
      as [IHf IHe].
    destruct (advanceCalls_commutes t cs w) as (Hf & He1 & He2).
    rewrite IHf, IHe, Hf, He1, He2. split; [done |].
    rewrite !(assoc_L (++)). apply Permutation_app_tail, Permutation_app_comm.
Qed.

Lemma startLoadCalls_anywhere env serverUrl userId w w' :
  final (startLoadCalls env serverUrl userId w) = w
  ∧ result (startLoadCalls env serverUrl userId w)
    = result (startLoadCalls env serverUrl userId w')
  ∧ events (startLoadCalls env serverUrl userId w)
    = events (startLoadCalls env serverUrl userId w').
Proof. unfold_tasks. run_cases; done. Qed.

Lemma startLoadConfig_final env serverUrl w :
  final (startLoadConfig env serverUrl w) = w.
Proof. unfold_tasks. run_cases; done. Qed.

Lemma checkIsCallsPluginEnabled_final env serverUrl w :
  final (checkIsCallsPluginEnabled env serverUrl w) = w.
Proof. unfold checkIsCallsPluginEnabled. run_cases; done. Qed.

(** X20: [loadConfigAndCalls] starts nothing unless the plugin check reports
    true: it then makes the calls of the check and no other.  When the check
    reports true, [setPluginEnabled(serverUrl, true)] has been called and
    both actions are started, each up to its request, before the answer of
    either is handled; at the return of [loadConfigAndCalls] neither
    [setConfig] nor [setCalls] has been called. *)
Theorem loadConfigAndCalls_start env serverUrl userId w :
  let check := checkIsCallsPluginEnabled env serverUrl w in
  let r := loadConfigAndCalls env serverUrl userId w in
  (result check ≠ Data true →
   result r = (None, None) ∧ events r = events check)
  ∧ (result check = Data true →
     ∃ client,
       env_getClient env serverUrl = inr client
       ∧ result r
         = (Some (AwaitCallsConfig serverUrl (Date_now env)
                    (storedConfig serverUrl w) (resp_getCallsConfig client)),
            Some (AwaitCalls serverUrl userId (resp_getCalls client)))
       ∧ events r
         = [EvGetClient serverUrl; EvRequest serverUrl ReqGetPluginsManifests;
            EvSetPluginEnabled serverUrl true;
            EvGetClient serverUrl; EvRequest serverUrl ReqGetCallsConfig;
            EvGetClient serverUrl; EvRequest serverUrl ReqGetCalls])
  ∧ (∀ u config, EvSetConfig u config ∉ events r)
  ∧ (∀ u id cs en, EvSetCalls u id cs en ∉ events r).
Proof.
  intros check r. subst check r.
  unfold_tasks. unfold storedConfig, checkIsCallsPluginEnabled, dataOrFalse.
  split; [| split; [| split]].
  - run_cases; intros Hne; done.
  - run_cases; intros Hd; simplify_eq; eexists; done.
  - intros u config. run_cases; not_in_trace.
  - intros u id cs en. run_cases; not_in_trace.
Qed.

(** X21: whatever the order in which the steps of the two unawaited actions
    are taken, the state they leave is the one [loadConfig(serverUrl, true)]
    followed by [loadCalls] leaves, and the calls made are the same calls,
    each as often. *)
Theorem loadConfigAndCalls_any_order env serverUrl userId w schedule :
  result (checkIsCallsPluginEnabled env serverUrl w) = Data true →
  let r := loadConfigAndCalls env serverUrl userId w in
  let rest := interleave schedule (result r).1 (result r).2 (final r) in
  let w1 := final (loadConfig env serverUrl true w) in
  final rest = final (loadCalls env serverUrl userId w1)
  ∧ events r ++ events rest
    ≡ₚ events (checkIsCallsPluginEnabled env serverUrl w)
       ++ events (loadConfig env serverUrl true w)
       ++ events (loadCalls env serverUrl userId w1).
Proof.
  intros Hcheck r rest w1. subst rest.
  pose proof (checkIsCallsPluginEnabled_final env serverUrl w) as Hcf.
  pose proof (startLoadConfig_final env serverUrl w) as Hsf.
  destruct (startLoadCalls_anywhere env serverUrl userId w w1) as (Hlf & Hlr & Hle).
  pose proof (start_finish_loadConfig env serverUrl w) as Hconfig.
  pose proof (start_finish_loadCalls env serverUrl userId w1) as Hcalls.
  assert (final r = w
          ∧ (result r).1 = result (startLoadConfig env serverUrl w)
          ∧ (result r).2 = result (startLoadCalls env serverUrl userId w)
          ∧ events r = events (checkIsCallsPluginEnabled env serverUrl w)
                       ++ events (startLoadConfig env serverUrl w)
                       ++ events (startLoadCalls env serverUrl userId w))
    as (Hrf & Hr1 & Hr2 & Hre).
  { subst r. unfold loadConfigAndCalls.
    rewrite final_bind, result_bind, events_bind, Hcheck, Hcf. cbn [dataOrFalse].
    rewrite !final_bind, !result_bind, !events_bind, Hsf, Hlf.
    unfold mret, M_ret, final, result, events. cbn. by rewrite app_nil_r. }
  destruct (interleave_any_order schedule (result r).1 (result r).2 (final r))
    as [Hif Hie].
  rewrite Hif, Hie, Hrf, Hr1, Hr2, Hre. clear Hif Hie Hrf Hr1 Hr2 Hre.
  assert (final (finishConfig (result (startLoadConfig env serverUrl w)) w) = w1
          ∧ events (loadConfig env serverUrl true w)
            = events (startLoadConfig env serverUrl w)
              ++ events (finishConfig (result (startLoadConfig env serverUrl w)) w))
    as [Hw1 Hev1].
  { subst w1. apply (f_equal final) in Hconfig as Hf.
    apply (f_equal events) in Hconfig as He.
    rewrite final_bind, Hsf in Hf. rewrite events_bind, Hsf in He.
    unfold ignore in Hf, He. rewrite final_bind in Hf. rewrite events_bind in He.
    cbn in Hf, He. rewrite app_nil_r in He. done. }
  assert (final (finishCalls (result (startLoadCalls env serverUrl userId w)) w1)
          = final (loadCalls env serverUrl userId w1)
          ∧ events (loadCalls env serverUrl userId w1)
            = events (startLoadCalls env serverUrl userId w)
              ++ events (finishCalls (result (startLoadCalls env serverUrl userId w)) w1))
    as [Hw2 Hev2].
  { apply (f_equal final) in Hcalls as Hf.
    apply (f_equal events) in Hcalls as He.
    destruct (startLoadCalls_anywhere env serverUrl userId w1 w) as (Hlf' & Hlr' & Hle').
    rewrite final_bind, Hlf', Hlr' in Hf. rewrite events_bind, Hlf', Hlr', Hle' in He.
    unfold ignore in Hf, He. rewrite final_bind in Hf. rewrite events_bind in He.
    cbn in Hf, He. rewrite app_nil_r in He. done. }
  rewrite Hw1, Hw2, Hev1, Hev2. split; [done |].
  rewrite <- !(assoc_L (++)). apply Permutation_app_head.
  apply Permutation_app_head.
  rewrite !(assoc_L (++)). apply Permutation_app_tail, Permutation_app_comm.
Qed.

End MoreProperties.

(** * Properties of the file-type filter *)


Lemma field_assign_eq state key v : field (assignField state key v) key = Some v.
Proof.
  induction state as [|[k v'] state IH]; cbn.
  - by rewrite decide_True.
  - destruct (decide (k = key)); cbn.
    + by rewrite decide_True.
    + by rewrite decide_False.
Qed.

Lemma field_assign_ne state key key' v :
  key' ≠ key → field (assignField state key v) key' = field state key'.
Proof.
  intros Hne. induction state as [|[k v'] state IH]; cbn.
  - by rewrite decide_False.
  - destruct (decide (k = key)) as [->|Hk]; cbn.
    + by rewrite !decide_False.
    + destruct (decide (k = key')); done.
Qed.

Lemma assign_keys state key v b :
  field state key = Some b → (assignField state key v).*1 = state.*1.
Proof.
  induction state as [|[k v'] state IH]; cbn; [done |].
  destruct (decide (k = key)) as [->|Hk]; cbn; [done |].
  intros Hf. by rewrite IH.
Qed.

Lemma assign_assign state key v v' :
  assignField (assignField state key v) key v' = assignField state key v'.
Proof.
  induction state as [|[k w] state IH]; cbn.
  - by rewrite decide_True.
  - destruct (decide (k = key)) as [->|Hk]; cbn.
    + by rewrite decide_True.
    + by rewrite decide_False, IH.
Qed.

Lemma assign_same state key b :
  field state key = Some b → assignField state key b = state.
Proof.
  induction state as [|[k w] state IH]; cbn; [done |].
  destruct (decide (k = key)) as [->|Hk].
  - by intros [= ->].
  - intros Hf. by rewrite IH.
Qed.

(** X22: pressing an item that the state has flips that item and its icon and
    nothing else: the other items and their icons stay, the keys keep their
    order, and pressing the item again gives back the state as it was. *)
Theorem handleMyState_toggles filterState value b :
  field filterState value = Some b →
  field (handleMyState filterState value) value = Some (negb b)
  ∧ (∀ other, other ≠ value →
       field (handleMyState filterState value) other = field filterState other
       ∧ iconName (handleMyState filterState value) other
         = iconName filterState other)
  ∧ iconName (handleMyState filterState value) value ≠ iconName filterState value
  ∧ (handleMyState filterState value).*1 = filterState.*1
  ∧ handleMyState (handleMyState filterState value) value = filterState.
Proof.
  intros Hf. unfold handleMyState, iconName.
  rewrite !field_assign_eq, Hf. cbn.
  split; [done |]. split; [| split; [| split]].
  - intros other Hne. by rewrite field_assign_ne.
  - by destruct b.
  - by apply (assign_keys _ _ _ b).
  - rewrite assign_assign, negb_involutive. by apply assign_same.
Qed.

Lemma field_handleMyState state key k :
  field (handleMyState state key) k
  = if decide (key = k) then Some (negb (truthy (field state k)))
    else field state k.
Proof.
  unfold handleMyState. destruct (decide (key = k)) as [->|Hne].
  - by rewrite field_assign_eq.
  - by rewrite field_assign_ne.
Qed.

Lemma presses_cons key k pressed :
  presses key (k :: pressed)
  = if decide (k = key) then S (presses key pressed) else presses key pressed.
Proof. unfold presses. rewrite filter_cons. by destruct (decide (k = key)). Qed.

Lemma field_after_presses pressed state key :
  field (foldl handleMyState state pressed) key
  = match presses key pressed with
    | O => field state key
    | S n => Some (xorb (truthy (field state key)) (Nat.odd (S n)))
    end.
Proof.
  revert state. induction pressed as [|k pressed IH]; intros state; [done |].
  cbn [foldl]. rewrite IH, presses_cons, field_handleMyState.
  destruct (decide (k = key)) as [->|Hne].
  - destruct (presses key pressed) as [|n]; cbn [truthy].
    + cbn. by destruct (truthy _).
    + rewrite (Nat.odd_succ (S n)), (Nat.even_succ n), (Nat.odd_succ n).
      rewrite <- Nat.negb_odd. by destruct (truthy _), (Nat.odd n).
  - done.
Qed.

(** X23: after any sequence of presses, an item is on exactly when its
    value before the presses and the parity of the number of times it was
    pressed differ, and its icon shows that; after Clear all, an item is on
    exactly when it was pressed an odd number of times since. *)
Theorem presses_parity filterState pressed key b :
  field filterState key = Some b →
  field (foldl handleMyState filterState pressed) key
  = Some (xorb b (Nat.odd (presses key pressed)))
  ∧ iconName (foldl handleMyState filterState pressed) key
    = (if xorb b (Nat.odd (presses key pressed))
       then "check-circle" else "circle-outline")
  ∧ field (foldl handleMyState handleClearAll pressed) key
    = Some (Nat.odd (presses key pressed)).
Proof.
  intros Hf.
  assert (∀ state v, field state key = Some v →
            field (foldl handleMyState state pressed) key
            = Some (xorb v (Nat.odd (presses key pressed)))) as Hfield.
  { intros state v Hv. rewrite field_after_presses, Hv.
    destruct (presses key pressed); cbn [truthy]; [by destruct v | done]. }
  split; [by apply Hfield |]. split.
  - unfold iconName. by rewrite (Hfield filterState b).
  - rewrite (Hfield handleClearAll false); [done |]. by destruct key.
Qed.

Lemma entriesText_inj first s1 s2 :
  entriesText first s1 = entriesText first s2 → s1 = s2.
Proof.
  revert first s2. induction s1 as [|[k1 v1] s1 IH]; intros first s2 Heq.
  - destruct s2 as [|[k2 v2] s2]; [done |].
    by destruct first, k2, v2.
  - destruct s2 as [|[k2 v2] s2].
    { by destruct first, k1, v1. }
    destruct first, k1, k2; try discriminate Heq;
      destruct v1, v2; try discriminate Heq;
      cbn in Heq; simplify_eq; f_equal; by eapply IH.
Qed.

Lemma JSON_stringify_inj s1 s2 : JSON_stringify s1 = JSON_stringify s2 → s1 = s2.
Proof.
  unfold JSON_stringify. cbn. intros Heq. simplify_eq. by eapply entriesText_inj.
Qed.

Lemma presses_keep_keys pressed state :
  (∀ k, k ∈ pressed → is_Some (field state k)) →
  (foldl handleMyState state pressed).*1 = state.*1.
Proof.
  revert state. induction pressed as [|k pressed IH]; intros state Hall; [done |].
  cbn [foldl]. destruct (Hall k) as [b Hb]; [apply list_elem_of_here |].
  rewrite IH.
  - unfold handleMyState. by apply (assign_keys _ _ _ b).
  - intros k' Hin. rewrite field_handleMyState.
    destruct (decide (k = k')); [done |].
    apply Hall. by apply list_elem_of_further.
Qed.

Lemma field_not_key state key : key ∉ state.*1 → field state key = None.
Proof.
  induction state as [|[k v] state IH]; cbn; [done |].
  intros Hnot. apply not_elem_of_cons in Hnot as [Hne Hnot].
  rewrite decide_False by done. by apply IH.
Qed.

Lemma state_ext s1 s2 :
  s1.*1 = s2.*1 → NoDup (s1.*1) →
  (∀ k, field s1 k = field s2 k) → s1 = s2.
Proof.
  revert s2. induction s1 as [|[k1 v1] s1 IH]; intros s2 Hkeys Hnd Hf.
  - by destruct s2.
  - destruct s2 as [|[k2 v2] s2]; [done |]. cbn in Hkeys.
    injection Hkeys as -> Hkeys.
    apply NoDup_cons in Hnd as [Hnot Hnd].
    pose proof (Hf k2) as Hk. cbn in Hk. rewrite !decide_True in Hk by done.
    injection Hk as ->. f_equal. apply IH; [done | done |].
    intros k. specialize (Hf k). cbn in Hf.
    destruct (decide (k2 = k)) as [<-|Hne]; [| done].
    rewrite !field_not_key; [done | by rewrite <- Hkeys | done].
Qed.

Lemma pressed_elem_of key pressed n : presses key pressed = S n → key ∈ pressed.
Proof.
  unfold presses. intros Hn.
  destruct (filter (λ k, k = key) pressed) as [|x l] eqn:Hfl; [done |].
  assert (x ∈ filter (λ k, k = key) pressed) as Hx
    by (rewrite Hfl; apply list_elem_of_here).
  apply list_elem_of_filter in Hx as [-> Hx]. done.
Qed.

(** X24: the flag that disables the Show results button is on exactly when
    the filter state is the initial state, key for key in the same order;
    then every item has its initial value and icon.  After a sequence of
    presses from the initial state it is on exactly when every item was
    pressed an even number of times. *)
Theorem show_results_disabled filterState initialState :
  (enableShowResults filterState initialState = true ↔ filterState = initialState)
  ∧ (enableShowResults filterState initialState = true →
     ∀ key, field filterState key = field initialState key
            ∧ iconName filterState key = iconName initialState key)
  ∧ (∀ pressed,
       NoDup (initialState.*1) →
       (∀ k, k ∈ pressed → is_Some (field initialState k)) →
       enableShowResults (foldl handleMyState initialState pressed) initialState
       = true
       ↔ ∀ key, Nat.even (presses key pressed) = true).
Proof.
  assert (∀ s, enableShowResults s initialState = true ↔ s = initialState) as Heq.
  { intros s. unfold enableShowResults. rewrite bool_decide_eq_true.
    split; [apply JSON_stringify_inj | by intros ->]. }
  split; [apply Heq |]. split.
  - intros ->%Heq. done.
  - intros pressed Hnd Hall. rewrite Heq. split.
    + intros Hsame key.
      pose proof (field_after_presses pressed initialState key) as Hf.
      rewrite Hsame in Hf.
      destruct (presses key pressed) as [|n] eqn:Hn; [done |].
      destruct (Hall key (pressed_elem_of key pressed n Hn)) as [b Hb].
      rewrite Hb in Hf. cbn [truthy] in Hf.
      rewrite <- Nat.negb_odd. destruct (Nat.odd (S n)); [| done].
      by destruct b.
    + intros Heven. apply state_ext.
      * by apply presses_keep_keys.
      * by rewrite presses_keep_keys.
      * intros key. rewrite field_after_presses.
        specialize (Heven key). rewrite <- Nat.negb_odd in Heven.
        destruct (presses key pressed) as [|n] eqn:Hn; [done |].
        destruct (Nat.odd (S n)); [done |].
        destruct (Hall key (pressed_elem_of key pressed n Hn)) as [b Hb].
        rewrite Hb. cbn. by destruct b.
Qed.

(** * The further properties at sample inputs *)

Lemma client_lookup_failure_witness :
  loadCalls (envWith 5000000 (inl sampleError)) sampleUrl "user1" callWorld
  = (Error (Thrown sampleError), callWorld, [EvGetClient sampleUrl]).
Proof.
  destruct (client_lookup_failure (H := sampleImports)
              (envWith 5000000 (inl sampleError)) sampleUrl callWorld sampleError
              eq_refl) as (_ & Hcalls & _).
  exact (Hcalls "user1").
Defined.

Lemma loadConfig_stale_or_unstamped_witness :
  let env := envWith 5000000 (inr (clientOk ∅ [])) in
  loadConfig (H := sampleImports) env sampleUrl false cachedWorld
  = loadConfig (H := sampleImports) env sampleUrl true cachedWorld.
Proof.
  intros env.
  destruct (loadConfig_stale_or_unstamped (H := sampleImports) env sampleUrl
              cachedWorld) as (Hstale & _).
  apply Hstale. vm_compute. discriminate.
Defined.

Lemma loadConfig_cached_after_fetch_witness :
  let env := envWith 5000000 (inr clientDown) in
  let env' := envWith 5000100 (inr clientDown) in
  let w1 := final (loadConfig (H := sampleImports) env sampleUrl true cachedWorld) in
  loadConfig (H := sampleImports) env' sampleUrl false w1
  = (Data (defaultConfigAt (H := sampleImports) 5000000), w1, []).
Proof.
  intros env env' w1.
  destruct (loadConfig_cached_after_fetch (H := sampleImports) env env' sampleUrl
              true cachedWorld) as (_ & Hcached & _).
  - vm_compute. apply list_elem_of_further, list_elem_of_here.
  - reflexivity.
  - etransitivity; [exact Hcached | reflexivity].
Defined.

Lemma actions_keep_other_servers_witness :
  let env := envWith 5000000 (inr (clientOk ∅ sampleResp)) in
  callsStates (final (perform (H := sampleImports) env
                        (ActLoadCalls otherUrl "user1") callWorld)) !! sampleUrl
  = callsStates callWorld !! sampleUrl.
Proof.
  intros env.
  destruct (actions_keep_other_servers (H := sampleImports) env
              (ActLoadCalls otherUrl "user1") callWorld sampleUrl) as (_ & Hstates).
  - discriminate.
  - exact Hstates.
Defined.


Lemma loadCalls_maps_witness :
  let env := envWith 5000000 (inr (clientOk ∅ sampleResp)) in
  ∃ cs en,
    result (loadCalls env sampleUrl "user1" callWorld) = Data (cs, en)
    ∧ en !! "channel1" = Some true
    ∧ is_Some (cs !! "channel1").
Proof.
  intros env.
  destruct (loadCalls_maps env sampleUrl "user1" callWorld (clientOk ∅ sampleResp)
              sampleResp eq_refl eq_refl)
    as (cs & en & Hres & _ & _ & Hlast & Hcalls & _).
  exists cs, en. split; [exact Hres |]. split.
  - apply (Hlast 0%nat {| channel_id := "channel1"; enabled := true;
                          call := Some sampleServerCall |} eq_refl).
    intros j ch' Hj Hlook. destruct j as [|j]; [lia | discriminate Hlook].
  - apply Hcalls.
    exists {| channel_id := "channel1"; enabled := true;
              call := Some sampleServerCall |}.
    split; [apply list_elem_of_here |]. split; [reflexivity | by eexists].
Defined.

Lemma loadCalls_fetches_users_witness :
  let env := envWith 5000000 (inr (clientOk ∅ sampleResp)) in
  NoDup (collectIds sampleResp) ∧ collectIds sampleResp = ["user1"; "user2"].
Proof.
  intros env.
  destruct (loadCalls_fetches_users env sampleUrl "user1" emptyWorld
              (clientOk ∅ sampleResp) sampleResp eq_refl eq_refl) as (Hnd & _).
  split; [exact Hnd | reflexivity].
Defined.

Lemma participants_count_witness :
  NoDup (users sampleServerCall)
  ∧ size (buildParticipants sampleServerCall) = 2%nat.
Proof.
  assert (NoDup (users sampleServerCall)) as Hnd.
  { apply (bool_decide_unpack _). vm_compute. exact I. }
  split; [exact Hnd |].
  destruct (participants_count sampleServerCall) as (_ & Hlen & _).
  exact (Hlen Hnd).
Defined.

Lemma plugin_check_witness :
  let env := envWith 5000000 (inr (clientOk ∅ [])) in
  final (checkIsCallsPluginEnabled (H := sampleImports) env sampleUrl callWorld)
  = callWorld.
Proof.
  intros env.
  destruct (plugin_check (H := sampleImports) env sampleUrl callWorld
              (clientOk ∅ [])
              [ {| manifest_id := "com.mattermost.calls" |} ] eq_refl eq_refl)
    as (Hfinal & _).
  exact Hfinal.
Defined.

Lemma joinCall_trace_witness :
  let env := envWith 5000000 (inr (clientOk ∅ [])) in
  events (joinCall (H := sampleImports) env sampleUrl "channel1" sampleIntl inCallWorld)
  = [EvGetClient sampleUrl; EvRequest sampleUrl ReqGetPluginsManifests;
     EvSetPluginEnabled sampleUrl true; EvHasMicrophonePermission;
     EvDisconnect sampleConnection;
     EvInCallManagerSetSpeakerphoneOn false; EvSetSpeakerPhone false;
     EvNewConnection sampleUrl "channel1" (inr sampleConnection);
     EvWaitForReady sampleConnection; EvMyselfJoinedCall sampleUrl "channel1"].
Proof.
  intros env.
  assert (reachesWaitForReady (H := sampleImports) env sampleUrl "channel1"
            inCallWorld sampleConnection) as Hreach.
  { split; [reflexivity |]. split; reflexivity. }
  etransitivity.
  - exact (joinCall_trace (H := sampleImports) env sampleUrl "channel1" sampleIntl
             inCallWorld sampleConnection Hreach).
  - reflexivity.
Defined.

Lemma joinCall_connection_failure_witness :
  let r := joinCall (H := sampleImports) envNoConnection sampleUrl "channel1"
             sampleIntl inCallWorld in
  result r = Error (Thrown sampleError) ∧ connection (final r) = None.
Proof.
  intros r.
  destruct (joinCall_connection_failure (H := sampleImports) envNoConnection
              sampleUrl "channel1" sampleIntl inCallWorld sampleError
              eq_refl eq_refl eq_refl) as (Hres & Hconn & _).
  split; [exact Hres | exact Hconn].
Defined.

Lemma joinCall_refused_witness :
  let r := joinCall (H := sampleImports) envNoMicrophone sampleUrl "channel1"
             sampleIntl inCallWorld in
  result r = Error (Literal "no permissions to microphone, unable to start call")
  ∧ events r
    = [EvGetClient sampleUrl; EvRequest sampleUrl ReqGetPluginsManifests;
       EvSetPluginEnabled sampleUrl true; EvHasMicrophonePermission]
  ∧ connection (final r) = Some sampleConnection.
Proof.
  intros r.
  destruct (joinCall_refused (H := sampleImports) envNoMicrophone sampleUrl
              "channel1" sampleIntl inCallWorld) as (Hconn & _ & _ & _ & Hmic & _).
  - right. reflexivity.
  - destruct (Hmic eq_refl) as (Hres & Hev).
    split; [exact Hres | split; [exact Hev | exact Hconn]].
Defined.

Lemma connection_actions_follow_the_call_witness :
  let env := envWith 5000000 (inr (clientOk ∅ [])) in
  let w1 := final (joinCall (H := sampleImports) env sampleUrl "channel1"
                     sampleIntl emptyWorld) in
  ∃ conn, muteMyself w1 = (tt, w1, [EvMute conn]).
Proof.
  intros env w1.
  destruct (connection_actions_follow_the_call (H := sampleImports) env sampleUrl
              "channel1" sampleIntl emptyWorld) as (Hjoined & _).
  destruct (Hjoined "channel1" eq_refl) as (conn & _ & Hmute & _).
  exists conn. exact Hmute.
Defined.

Lemma connections_pile_up_only_on_overlap_witness :
  let env := envTwoChannels in
  let session := [(env, ActJoinCall sampleUrl "channel1" sampleIntl);
                  (env, ActJoinCall sampleUrl "channel2" sampleIntl)] in
  let r := twoJoinCalls (H := sampleImports) inTurn
             env sampleUrl "channel1" sampleIntl
             env sampleUrl "channel2" sampleIntl emptyWorld in
  openConnections (events (performAll (H := sampleImports) session emptyWorld))
  = [otherConnection]
  ∧ openConnections (events r) = [otherConnection; sampleConnection]
  ∧ connection (final r) = Some otherConnection.
Proof.
  intros env session r.
  destruct (connections_pile_up_only_on_overlap (H := sampleImports))
    as (Hsequence & Hoverlap).
  split.
  - destruct (Hsequence session emptyWorld eq_refl) as (Hopen & _).
    etransitivity; [exact Hopen | reflexivity].
  - destruct (Hoverlap env sampleUrl "channel1" sampleIntl
                env sampleUrl "channel2" sampleIntl emptyWorld
                sampleConnection otherConnection eq_refl)
      as (_ & Hheld & _ & Hopen & _).
    + split; [reflexivity | split; reflexivity].
    + split; [reflexivity | split; reflexivity].
    + reflexivity.
    + reflexivity.
    + split; [exact Hopen | exact Hheld].
Defined.

Lemma endCallAlert_offers_witness :
  let env := envWithDatabase adminDatabase in
  ∃ title msg,
    events (endCallAlert (H := sampleImports) env sampleUrl sampleIntl "channel1"
              callWorld)
    = [EvAlert title msg (endCallButtons sampleIntl sampleUrl "channel1")].
Proof.
  intros env.
  destruct (endCallAlert_offers (H := sampleImports) env sampleUrl sampleIntl
              "channel1" callWorld adminDatabase adminUser sampleChannel sampleCall
              eq_refl eq_refl eq_refl eq_refl) as (Hshown & _).
  - left. reflexivity.
  - do 2 eexists. rewrite Hshown. reflexivity.
Defined.

Lemma press_endCall_witness :
  let env := envWith 5000000 (inr clientDown) in
  events (press env (PressEndCall sampleUrl "channel1") callWorld)
  = [EvGetClient sampleUrl; EvRequest sampleUrl (ReqEndCall "channel1");
     EvForceLogoutIfNecessary sampleUrl sampleError;
     EvAlert "Error" "Error: Network request failed" []].
Proof.
  intros env.
  destruct (press_endCall env sampleUrl "channel1" callWorld)
    as (_ & _ & Hfail & _).
  etransitivity; [exact (Hfail clientDown sampleError eq_refl eq_refl) |].
  reflexivity.
Defined.

Lemma creator_may_end_loaded_call_witness :
  let env := envWith 5000000 (inr (clientOk ∅ sampleResp)) in
  let env' := envWithDatabase (databaseWith {[ "channel1" := sampleChannel ]}) in
  let w1 := final (loadCalls env sampleUrl "user1" emptyWorld) in
  ∃ title msg,
    events (endCallAlert (H := sampleImports) env' sampleUrl sampleIntl "channel1" w1)
    = [EvAlert title msg (endCallButtons sampleIntl sampleUrl "channel1")].
Proof.
  intros env env' w1. do 2 eexists.
  apply (creator_may_end_loaded_call (H := sampleImports) env env' sampleUrl
           "user1" sampleIntl emptyWorld (clientOk ∅ sampleResp) sampleResp 0%nat
           {| channel_id := "channel1"; enabled := true;
              call := Some sampleServerCall |} sampleServerCall
           (databaseWith {[ "channel1" := sampleChannel ]}) sampleUser sampleChannel
           eq_refl eq_refl eq_refl eq_refl).
  - intros j ch' Hj Hlook. destruct j as [|j]; [lia | discriminate Hlook].
  - reflexivity.
  - reflexivity.
  - reflexivity.
  - reflexivity.
Defined.

Lemma channel_toggle_composes_witness :
  let env := envWith 5000000 (inr (clientOk ∅ [])) in
  let w1 := final (enableChannelCalls env sampleUrl "channel1" callWorld) in
  calls (result (getCallsState sampleUrl w1)) !! "channel1" = Some sampleCall
  ∧ channelEnabled sampleUrl "channel1"
      (final (disableChannelCalls env sampleUrl "channel1" w1)) = Some false.
Proof.
  intros env w1.
  destruct (channel_toggle_composes env env sampleUrl "channel1" callWorld
              (clientOk ∅ []) (clientOk ∅ []) eq_refl eq_refl eq_refl eq_refl)
    as (Hcalls & _ & _ & _ & Hflag & _).
  split; [| exact Hflag].
  subst w1. rewrite Hcalls. reflexivity.
Defined.

Lemma loadConfigAndCalls_start_witness :
  let env := envWith 5000000 (inr (clientOk ∅ sampleResp)) in
  let r := loadConfigAndCalls (H := sampleImports) env sampleUrl "user1" cachedWorld in
  events r
  = [EvGetClient sampleUrl; EvRequest sampleUrl ReqGetPluginsManifests;
     EvSetPluginEnabled sampleUrl true;
     EvGetClient sampleUrl; EvRequest sampleUrl ReqGetCallsConfig;
     EvGetClient sampleUrl; EvRequest sampleUrl ReqGetCalls]
  ∧ result (loadConfigAndCalls (H := sampleImports)
              (envWith 5000000 (inr clientDown)) sampleUrl "user1" cachedWorld)
    = (None, None).
Proof.
  intros env r. split.
  - destruct (loadConfigAndCalls_start (H := sampleImports) env sampleUrl "user1"
                cachedWorld) as (_ & Hon & _).
    destruct (Hon eq_refl) as (client & _ & _ & Hev). exact Hev.
  - destruct (loadConfigAndCalls_start (H := sampleImports)
                (envWith 5000000 (inr clientDown)) sampleUrl "user1" cachedWorld)
      as (Hoff & _).
    destruct Hoff as (Hres & _); [discriminate | exact Hres].
Defined.

Lemma loadConfigAndCalls_any_order_witness :
  let env := envWith 5000000 (inr (clientOk ∅ sampleResp)) in
  let r := loadConfigAndCalls (H := sampleImports) env sampleUrl "user1" cachedWorld in
  final (interleave (H := sampleImports) [false; true] (result r).1 (result r).2
           (final r))
  = final (loadCalls env sampleUrl "user1"
             (final (loadConfig (H := sampleImports) env sampleUrl true cachedWorld))).
Proof.
  intros env r.
  destruct (loadConfigAndCalls_any_order (H := sampleImports) env sampleUrl "user1"
              cachedWorld [false; true] eq_refl) as (Hfinal & _).
  exact Hfinal.
Defined.

Lemma handleMyState_toggles_witness :
  field (handleMyState sampleFilter Images) Images = Some false
  ∧ handleMyState (handleMyState sampleFilter Images) Images = sampleFilter.
Proof.
  destruct (handleMyState_toggles sampleFilter Images true eq_refl)
    as (Hflip & _ & _ & _ & Hback).
  split; [exact Hflip | exact Hback].
Defined.

Lemma presses_parity_witness :
  field (foldl handleMyState sampleFilter [Code; Images; Code; Code]) Code
  = Some true.
Proof.
  destruct (presses_parity sampleFilter [Code; Images; Code; Code] Code false
              eq_refl) as (Hfield & _).
  etransitivity; [exact Hfield | reflexivity].
Defined.

Lemma show_results_disabled_witness :
  enableShowResults (foldl handleMyState sampleFilter [Code; Audio; Code; Audio])
    sampleFilter = true.
Proof.
  destruct (show_results_disabled sampleFilter sampleFilter) as (_ & _ & Hpresses).
  apply (Hpresses [Code; Audio; Code; Audio]).
  - apply (bool_decide_unpack _). vm_compute. exact I.
  - intros k _. destruct k; by eexists.
  - intros key. by destruct key.
Defined.
